(** * Lifespan-Inflation: the projection engines of the calculator

    A shallow embedding of the computations of the four components:

    - [Lifespan]      : [src/src/App.tsx], the portfolio variant (ratio
                        series, nominal and asset-denominated expenses,
                        running portfolio balance, depletion year, totals,
                        averages);
    - [AssetAdjusted] : the second component of [src/src/App.tsx], the same
                        projection with asset-adjusted expenses;
    - [Trajectory]    : the first component of [src/unnamed/part_000], the
                        nominal and real cost trajectory;
    - [Cumulative]    : the second component of [src/unnamed/part_000]
                        (price override, running cumulative cost in both
                        units, log/linear chart trimming);
    - [Price]         : the price fetch and the warnings of that component;
    - [JsMath]        : [clamp] and the input handlers.

    Formatting ([toFixed], [Intl.NumberFormat], dates) and rendering are not
    modelled.

    Numbers.  The source computes on JavaScript numbers.  Here a finite
    number is an exact rational in canonical form ([Qc]): [+], [-], [*], [/]
    are the field operations and [Math.pow x k], for the loop counter [k], is
    [x ^ k].  Rounding is not modelled, so the statements relate the values
    the code computes to one another, through the operations the code
    applies, or compare them; where a statement needs the values to be
    apart by more than rounding, it is stated for the values the sliders
    can hold.  The horizon [extraYears] comes from
    a slider with step 1 and is a [nat].  Division by zero is [0] in [Qc] and
    [Infinity]/[NaN] in the source: the model speaks for the source where no
    divisor is zero, that is for [a <> -1] (and a non-zero price in the
    cumulative variant); the quotient by the horizon, which the source
    guards, is [JsMath.divide] and shows a zero divisor.  A statement that fixes the value of a quotient of
    rates says so in a hypothesis; a statement that only relates one computed
    field to another also holds in the model at [a = -1], where it says
    nothing about the non-finite values of the source.  The non-finite
    numbers appear only where the source tests for them ([Number.isFinite]
    in the price override), as the type [JsNumber]. *)

From Stdlib Require Import List Arith Lia ZArith QArith Qcanon Bool String.
Import ListNotations.

Open Scope Qc_scope.

(** ** Numbers *)

Module Num.

(** The loop counter and the horizon, read as numbers. *)
Definition of_nat (n : nat) : Qc := Q2Qc (inject_Z (Z.of_nat n)).

(** A decimal literal [n / d], e.g. [100] or [1e-6]. *)
Definition lit (n : Z) (d : positive) : Qc := Q2Qc (n # d).

(** [x <= y] and [x > y] as the source's boolean tests. *)
Definition leb (x y : Qc) : bool := Qle_bool x y.
Definition gtb (x y : Qc) : bool := negb (Qle_bool x y).

(** [Math.min] on two numbers. *)
Definition min (x y : Qc) : Qc := if leb x y then x else y.

(** [Math.min(...xs)] for a non-empty [x :: xs]. *)
Definition minOf (x : Qc) (xs : list Qc) : Qc := fold_left min xs x.

(** [for (let k = 0; k <= hi; k += 1) body], as state passing. *)
Definition forUpTo {S : Type} (hi : nat) (body : nat -> S -> S) (init : S) : S :=
  fold_left (fun st k => body k st) (seq 0 (hi + 1)) init.

(** [xs[xs.length - 1]], [undefined] on the empty array. *)
Definition lastOpt {A : Type} (xs : list A) : option A :=
  nth_error xs (List.length xs - 1).

End Num.

(** ** The cumulative-cost variant, [src/unnamed/part_000] (second component) *)

Module Cumulative.

Inductive ScaleMode : Type := linear | log.

Record YearPoint : Type := mkYearPoint
  { year : nat
  ; cumUsd : Qc
  ; cumBtc : Qc }.

Definition FALLBACK_BTC_PRICE : Qc := Num.lit 60000 1.

(** A JavaScript number as [Number(...)] can return it: finite, or one of
    the three non-finite values. *)
Inductive JsNumber : Type :=
| Finite (q : Qc)
| PosInfinity
| NegInfinity
| NaN.

(** [Number.isFinite(x)]. *)
Definition isFinite (x : JsNumber) : bool :=
  match x with
  | Finite _ => true
  | PosInfinity | NegInfinity | NaN => false
  end.

(** [x <= 0]: a comparison with [NaN] is false. *)
Definition leZero (x : JsNumber) : bool :=
  match x with
  | Finite q => Num.leb q 0
  | NegInfinity => true
  | PosInfinity | NaN => false
  end.

Section PriceOverride.

(** The built-in string-to-number conversion, whose grammar the
    component does not depend on. *)
Variable Number : string -> JsNumber.

(** Lines 330-336. *)
Definition effectiveBtcPrice (btcPriceInput : string)
    (fetchedBtcPrice : JsNumber) : JsNumber :=
  let parsed := Number btcPriceInput in
  if negb (isFinite parsed) || leZero parsed then fetchedBtcPrice
  else parsed.

End PriceOverride.

Record LoopState : Type := mkLoopState
  { points : list YearPoint
  ; runningUsdTotal : Qc
  ; runningBtcTotal : Qc }.

Record Projection : Type := mkProjection
  { series : list YearPoint
  ; chartSeries : list YearPoint
  ; cumUsdAtT : Qc
  ; cumBtcAtT : Qc
  ; lifespanInflationFactor : Qc
  ; minPositiveUsd : Qc
  ; minPositiveBtc : Qc }.

Definition rate (percent : Qc) : Qc := percent / Num.lit 100 1.

Definition ratioBase (i a : Qc) : Qc := (1 + i) / (1 + a).

Definition initState : LoopState :=
  {| points := []; runningUsdTotal := 0; runningBtcTotal := 0 |}.

(** One turn of the loop at index [k] (lines 351-364). *)
Definition loopBody (i a annualExpenseToday effectiveBtcPrice : Qc)
    (k : nat) (st : LoopState) : LoopState :=
  let expenseUsd := annualExpenseToday * (1 + i) ^ k in
  let btcPrice := effectiveBtcPrice * (1 + a) ^ k in
  let expenseBtc := expenseUsd / btcPrice in
  let usd :=
    if (0 <? k)%nat then runningUsdTotal st + expenseUsd
    else runningUsdTotal st in
  let btc :=
    if (0 <? k)%nat then runningBtcTotal st + expenseBtc
    else runningBtcTotal st in
  {| points := points st ++ [ {| year := k; cumUsd := usd; cumBtc := btc |} ]
   ; runningUsdTotal := usd
   ; runningBtcTotal := btc |}.

Definition runLoop (i a annualExpenseToday effectiveBtcPrice : Qc)
    (extraYears : nat) : LoopState :=
  Num.forUpTo extraYears (loopBody i a annualExpenseToday effectiveBtcPrice)
    initState.

(** Line 367. *)
Definition trimmedPoints (scaleMode : ScaleMode) (points : list YearPoint)
  : list YearPoint :=
  match scaleMode with
  | log => filter (fun point => (0 <? year point)%nat) points
  | linear => points
  end.

(** [xs.length > 0 ? Math.min(...xs) : dflt]. *)
Definition minOrDefault (xs : list Qc) (dflt : Qc) : Qc :=
  match xs with
  | [] => dflt
  | x :: rest => Num.minOf x rest
  end.

(** The whole [useMemo] body (lines 339-380); [effectiveBtcPrice] is the
    finite, positive price the override logic hands over. *)
Definition project
    (inflationPercent assetGrowthPercent : Qc) (extraYears : nat)
    (annualExpenseToday effectiveBtcPrice : Qc) (scaleMode : ScaleMode)
  : Projection :=
  let i := rate inflationPercent in
  let a := rate assetGrowthPercent in
  let lif := ratioBase i a ^ extraYears - 1 in
  let st := runLoop i a annualExpenseToday effectiveBtcPrice extraYears in
  let trimmed := trimmedPoints scaleMode (points st) in
  let usdPositives := filter (fun value => Num.gtb value 0) (map cumUsd trimmed) in
  let btcPositives := filter (fun value => Num.gtb value 0) (map cumBtc trimmed) in
  {| series := points st
   ; chartSeries := trimmed
   ; cumUsdAtT :=
       match Num.lastOpt (points st) with Some p => cumUsd p | None => 0 end
   ; cumBtcAtT :=
       match Num.lastOpt (points st) with Some p => cumBtc p | None => 0 end
   ; lifespanInflationFactor := lif
   ; minPositiveUsd := minOrDefault usdPositives 1
   ; minPositiveBtc := minOrDefault btcPositives (Num.lit 1 1000000) |}.

End Cumulative.

(** ** Input handlers: [clamp], [clampCurrencyInput], [x || 0] *)

Module JsMath.

Import Cumulative.

(** Truthiness of a number: [0] and [NaN] are falsy. *)
Definition truthy (x : JsNumber) : bool :=
  match x with
  | Finite q => negb (Qc_eq_bool q 0)
  | PosInfinity | NegInfinity => true
  | NaN => false
  end.

(** [x || 0]. *)
Definition orZero (x : JsNumber) : JsNumber :=
  if truthy x then x else Finite 0.

(** [Math.max(x, y)]: [NaN] if either argument is. *)
Definition max (x y : JsNumber) : JsNumber :=
  match x, y with
  | NaN, _ | _, NaN => NaN
  | PosInfinity, _ | _, PosInfinity => PosInfinity
  | NegInfinity, z | z, NegInfinity => z
  | Finite p, Finite q => Finite (if Num.leb p q then q else p)
  end.

(** [Math.min(x, y)]: [NaN] if either argument is. *)
Definition min (x y : JsNumber) : JsNumber :=
  match x, y with
  | NaN, _ | _, NaN => NaN
  | NegInfinity, _ | _, NegInfinity => NegInfinity
  | PosInfinity, z | z, PosInfinity => z
  | Finite p, Finite q => Finite (if Num.leb p q then p else q)
  end.

(** [x / y] on finite numbers with what the source gets from a zero
    divisor: [NaN] for [0 / 0], else the infinity of the sign of [x]. *)
Definition divide (x y : Qc) : JsNumber :=
  if Qc_eq_bool y 0 then
    if Qc_eq_bool x 0 then NaN
    else if Num.leb x 0 then NegInfinity else PosInfinity
  else Finite (x / y).

(** [src/src/App.tsx] line 46 (and line 385, and [part_000] line 275). *)
Definition clamp (value min max : JsNumber) : JsNumber :=
  JsMath.min (JsMath.max value min) max.

(** [part_000] lines 23-24. *)
Definition clampCurrencyInput (value : JsNumber) : JsNumber :=
  JsMath.min (JsMath.max value (Finite 1)) (Finite (Num.lit 1000000 1)).

(** The value the expense field stores for a parsed text
    ([src/src/App.tsx] line 238):
    [clamp(Number(event.target.value) || 0, 0, 10_000_000)]. *)
Definition annualExpenseInput (parsed : JsNumber) : JsNumber :=
  clamp (orZero parsed) (Finite 0) (Finite (Num.lit 10000000 1)).

End JsMath.

(** ** The portfolio variant, [src/src/App.tsx] *)

Module Lifespan.

Record YearPoint : Type := mkYearPoint
  { year : nat
  ; ratio : Qc
  ; E_nom_usd : Qc
  ; P_usd : Qc
  ; E_btc : Qc
  ; P_btc : Qc }.

(** The mutable locals of the [useMemo] body. *)
Record LoopState : Type := mkLoopState
  { points : list YearPoint
  ; runningUsdExpensesTotal : Qc
  ; runningBtcExpensesTotal : Qc
  ; portfolioUsd : Qc
  ; depletion : option nat }.

(** What the [useMemo] returns. *)
Record Projection : Type := mkProjection
  { series : list YearPoint
  ; lifespanInflationFactor : Qc
  ; lifespanInflationPercent : Qc
  ; finalRatio : Qc
  ; finalAnnualExpenseUsd : Qc
  ; finalAnnualExpenseBtc : Qc
  ; totalExpensesUsd : Qc
  ; totalExpensesBtc : Qc
  ; avgAnnualExpenseUsd : Cumulative.JsNumber
  ; avgAnnualExpenseBtc : Cumulative.JsNumber
  ; finalPortfolioUsd : Qc
  ; finalPortfolioBtc : Qc
  ; depletionYear : option nat }.

(** [const i = inflationPercent / 100], [const a = assetGrowthPercent / 100]. *)
Definition rate (percent : Qc) : Qc := percent / Num.lit 100 1.

(** [const ratioBase = (1 + i) / (1 + a)]. *)
Definition ratioBase (i a : Qc) : Qc := (1 + i) / (1 + a).

Definition initState (startingPortfolio : Qc) : LoopState :=
  {| points := []
   ; runningUsdExpensesTotal := 0
   ; runningBtcExpensesTotal := 0
   ; portfolioUsd := startingPortfolio
   ; depletion := None |}.

(** One turn of the loop at index [k] (lines 85-114). *)
Definition loopBody (i a annualExpenseToday : Qc) (k : nat) (st : LoopState)
  : LoopState :=
  let ratio := ratioBase i a ^ k in
  let btcUsdIndex := (1 + a) ^ k in
  let nominalExpenseUsd := annualExpenseToday * (1 + i) ^ k in
  let runningUsd :=
    if (0 <? k)%nat then runningUsdExpensesTotal st + nominalExpenseUsd
    else runningUsdExpensesTotal st in
  let portfolio :=
    if (0 <? k)%nat then portfolioUsd st * (1 + a) - nominalExpenseUsd
    else portfolioUsd st in
  let depl :=
    if (0 <? k)%nat then
      match depletion st with
      | None => if Num.leb portfolio 0 then Some k else None
      | Some d => Some d
      end
    else depletion st in
  let expenseBtc := nominalExpenseUsd / btcUsdIndex in
  let portfolioBtc := portfolio / btcUsdIndex in
  let runningBtc :=
    if (0 <? k)%nat then runningBtcExpensesTotal st + expenseBtc
    else runningBtcExpensesTotal st in
  {| points := points st ++
       [ {| year := k
          ; ratio := ratio
          ; E_nom_usd := nominalExpenseUsd
          ; P_usd := portfolio
          ; E_btc := expenseBtc
          ; P_btc := portfolioBtc |} ]
   ; runningUsdExpensesTotal := runningUsd
   ; runningBtcExpensesTotal := runningBtc
   ; portfolioUsd := portfolio
   ; depletion := depl |}.

(** The state after [for (let k = 0; k <= extraYears; k += 1)]. *)
Definition runLoop (i a annualExpenseToday startingPortfolio : Qc)
    (extraYears : nat) : LoopState :=
  Num.forUpTo extraYears (loopBody i a annualExpenseToday)
    (initState startingPortfolio).

(** The object after [??] at line 117; the source's literal has no [year],
    which no later line reads. *)
Definition fallbackPoint (annualExpenseToday startingPortfolio : Qc) : YearPoint :=
  {| year := 0
   ; ratio := 1
   ; E_nom_usd := annualExpenseToday
   ; P_usd := startingPortfolio
   ; E_btc := annualExpenseToday
   ; P_btc := startingPortfolio |}.

(** The whole [useMemo] body (lines 71-139).  The two averages are the one
    place where the source guards a divisor, so their quotient is
    [JsMath.divide], which shows a zero divisor. *)
Definition project
    (inflationPercent assetGrowthPercent : Qc) (extraYears : nat)
    (annualExpenseToday startingPortfolio : Qc) : Projection :=
  let i := rate inflationPercent in
  let a := rate assetGrowthPercent in
  let lif := ratioBase i a ^ extraYears - 1 in
  let st := runLoop i a annualExpenseToday startingPortfolio extraYears in
  let finalPoint :=
    match Num.lastOpt (points st) with
    | Some p => p
    | None => fallbackPoint annualExpenseToday startingPortfolio
    end in
  {| series := points st
   ; lifespanInflationFactor := lif
   ; lifespanInflationPercent := lif * Num.lit 100 1
   ; finalRatio := ratio finalPoint
   ; finalAnnualExpenseUsd := E_nom_usd finalPoint
   ; finalAnnualExpenseBtc := E_btc finalPoint
   ; totalExpensesUsd := runningUsdExpensesTotal st
   ; totalExpensesBtc := runningBtcExpensesTotal st
   ; avgAnnualExpenseUsd :=
       if (0 <? extraYears)%nat
       then JsMath.divide (runningUsdExpensesTotal st) (Num.of_nat extraYears)
       else Cumulative.Finite 0
   ; avgAnnualExpenseBtc :=
       if (0 <? extraYears)%nat
       then JsMath.divide (runningBtcExpensesTotal st) (Num.of_nat extraYears)
       else Cumulative.Finite 0
   ; finalPortfolioUsd := P_usd finalPoint
   ; finalPortfolioBtc := P_btc finalPoint
   ; depletionYear := depletion st |}.

End Lifespan.

(** ** The cost-trajectory variant, [src/unnamed/part_000] (first component) *)

Module Trajectory.

Record CostPoint : Type := mkCostPoint
  { year : nat
  ; nominal : Qc
  ; real : Qc }.

Record Result : Type := mkResult
  { data : list CostPoint
  ; finalNominal : Qc
  ; finalReal : Qc
  ; netRate : Qc }.

(** The callback of [Array.from] (lines 37-45). *)
Definition pointAt (ai fd startingCost : Qc) (t : nat) : CostPoint :=
  let nominal := startingCost * (1 + ai) ^ t in
  let real := nominal / (1 + fd) ^ t in
  {| year := t; nominal := nominal; real := real |}.

(** The whole [useMemo] body (lines 32-58). *)
Definition project (assetInflation fiatDeflation : Qc) (years : nat)
    (startingCost : Qc) : Result :=
  let ai := assetInflation / Num.lit 100 1 in
  let fd := fiatDeflation / Num.lit 100 1 in
  let net := (1 + ai) / (1 + fd) - 1 in
  let points := map (pointAt ai fd startingCost) (seq 0 (years + 1)) in
  let last :=
    match Num.lastOpt points with
    | Some p => p
    | None => {| year := 0; nominal := startingCost; real := startingCost |}
    end in
  {| data := points
   ; finalNominal := nominal last
   ; finalReal := real last
   ; netRate := net |}.

End Trajectory.

(** ** The asset-adjusted variant, [src/src/App.tsx] (second component) *)

Module AssetAdjusted.

Record YearPoint : Type := mkYearPoint
  { year : nat
  ; ratio : Qc
  ; nominalExpense : Qc
  ; assetAdjustedExpense : Qc
  ; portfolio : Qc }.

Record LoopState : Type := mkLoopState
  { points : list YearPoint
  ; runningNominalTotal : Qc
  ; runningAssetAdjustedTotal : Qc
  ; portfolioNow : Qc
  ; depletion : option nat }.

Record Projection : Type := mkProjection
  { series : list YearPoint
  ; lifespanInflationFactor : Qc
  ; lifespanInflationPercent : Qc
  ; finalRatio : Qc
  ; finalNominalExpense : Qc
  ; finalAssetAdjustedExpense : Qc
  ; totalNominal : Qc
  ; totalAssetAdjusted : Qc
  ; avgNominal : Cumulative.JsNumber
  ; avgAssetAdjusted : Cumulative.JsNumber
  ; depletionYear : option nat }.

Definition initState (startingPortfolio : Qc) : LoopState :=
  {| points := []
   ; runningNominalTotal := 0
   ; runningAssetAdjustedTotal := 0
   ; portfolioNow := startingPortfolio
   ; depletion := None |}.

(** One turn of the loop at index [k] (lines 421-443); [portfolioNow] is the
    local [portfolio]. *)
Definition loopBody (i a annualExpenseToday : Qc) (k : nat) (st : LoopState)
  : LoopState :=
  let ratio := Lifespan.ratioBase i a ^ k in
  let nominalExpense := annualExpenseToday * (1 + i) ^ k in
  let assetAdjustedExpense := annualExpenseToday * ratio in
  let runningNominal :=
    if (0 <? k)%nat then runningNominalTotal st + nominalExpense
    else runningNominalTotal st in
  let runningAssetAdjusted :=
    if (0 <? k)%nat then runningAssetAdjustedTotal st + assetAdjustedExpense
    else runningAssetAdjustedTotal st in
  let portfolio :=
    if (0 <? k)%nat then portfolioNow st * (1 + a) - nominalExpense
    else portfolioNow st in
  let depl :=
    if (0 <? k)%nat then
      match depletion st with
      | None => if Num.leb portfolio 0 then Some k else None
      | Some d => Some d
      end
    else depletion st in
  {| points := points st ++
       [ {| year := k
          ; ratio := ratio
          ; nominalExpense := nominalExpense
          ; assetAdjustedExpense := assetAdjustedExpense
          ; portfolio := portfolio |} ]
   ; runningNominalTotal := runningNominal
   ; runningAssetAdjustedTotal := runningAssetAdjusted
   ; portfolioNow := portfolio
   ; depletion := depl |}.

Definition runLoop (i a annualExpenseToday startingPortfolio : Qc)
    (extraYears : nat) : LoopState :=
  Num.forUpTo extraYears (loopBody i a annualExpenseToday)
    (initState startingPortfolio).

(** The whole [useMemo] body (lines 407-468); the literal after [??] has no
    [year] and no [portfolio], which no later line reads. *)
Definition project
    (inflationPercent assetGrowthPercent : Qc) (extraYears : nat)
    (annualExpenseToday startingPortfolio : Qc) : Projection :=
  let i := Lifespan.rate inflationPercent in
  let a := Lifespan.rate assetGrowthPercent in
  let lif := Lifespan.ratioBase i a ^ extraYears - 1 in
  let st := runLoop i a annualExpenseToday startingPortfolio extraYears in
  let finalPoint :=
    match Num.lastOpt (points st) with
    | Some p => p
    | None =>
        {| year := 0
         ; ratio := 1
         ; nominalExpense := annualExpenseToday
         ; assetAdjustedExpense := annualExpenseToday
         ; portfolio := startingPortfolio |}
    end in
  let averageNominal :=
    if (0 <? extraYears)%nat
    then JsMath.divide (runningNominalTotal st) (Num.of_nat extraYears)
    else Cumulative.Finite 0 in
  let averageAssetAdjusted :=
    if (0 <? extraYears)%nat
    then JsMath.divide (runningAssetAdjustedTotal st) (Num.of_nat extraYears)
    else Cumulative.Finite 0 in
  {| series := points st
   ; lifespanInflationFactor := lif
   ; lifespanInflationPercent := lif * Num.lit 100 1
   ; finalRatio := ratio finalPoint
   ; finalNominalExpense := nominalExpense finalPoint
   ; finalAssetAdjustedExpense := assetAdjustedExpense finalPoint
   ; totalNominal := runningNominalTotal st
   ; totalAssetAdjusted := runningAssetAdjustedTotal st
   ; avgNominal := averageNominal
   ; avgAssetAdjusted := averageAssetAdjusted
   ; depletionYear := depletion st |}.

End AssetAdjusted.

(** ** The price fetch and the warnings, [src/unnamed/part_000] (second
    component) *)

Module Price.

Import Cumulative.

(** [payload.bitcoin], with its two optional fields. *)
Record Bitcoin : Type := mkBitcoin
  { usd : option JsNumber
  ; last_updated_at : option JsNumber }.

(** What the [try] block of [loadBtcPrice] can meet: [fetch] rejects;
    or a response arrives, with its [ok] flag and what [response.json()]
    gives: [None] when it rejects (or the payload has no properties to
    read), else the payload's [bitcoin] field, if any. *)
Inductive FetchOutcome : Type :=
| Rejected
| Response (ok : bool) (json : option (option Bitcoin)).

(** The four state variables the effect sets. *)
Record PriceState : Type := mkPriceState
  { fetchedBtcPrice : JsNumber
  ; btcPriceInput : string
  ; btcUpdatedAt : option string
  ; btcFetchWarning : option string }.

Definition fetchFailedWarning : string :=
  "Could not fetch BTC price from CoinGecko. Using fallback P0 = 60,000 USD.".

Definition fallbackPendingWarning : string :=
  "Using fallback BTC price until market data loads.".

Definition logScaleWarning : string :=
  "Log scale excludes year 0 to avoid non-positive values.".

Definition overrideWarning : string :=
  "BTC price override must be positive. Using latest fetched value.".

Section Builtins.

(** Built-ins the component calls: [Number(text)], [String(number)],
    [new Date(seconds * 1000).toISOString()], which throws on a date out of
    range ([None]), and [new Date().toISOString()]. *)
Variable Number : string -> JsNumber.
Variable toText : JsNumber -> string.
Variable isoOfSeconds : JsNumber -> option string.
Variable nowIso : string.

(** The state of lines 285-290, before the fetch settles. *)
Definition initialState : PriceState :=
  {| fetchedBtcPrice := Finite FALLBACK_BTC_PRICE
   ; btcPriceInput := toText (Finite FALLBACK_BTC_PRICE)
   ; btcUpdatedAt := None
   ; btcFetchWarning := Some fallbackPendingWarning |}.

(** The [catch] branch (lines 319-324). *)
Definition fallbackState : PriceState :=
  {| fetchedBtcPrice := Finite FALLBACK_BTC_PRICE
   ; btcPriceInput := toText (Finite FALLBACK_BTC_PRICE)
   ; btcUpdatedAt := None
   ; btcFetchWarning := Some fetchFailedWarning |}.

(** [loadBtcPrice] (lines 293-325): the state its setters leave. *)
Definition loadBtcPrice (outcome : FetchOutcome) : PriceState :=
  match outcome with
  | Rejected => fallbackState
  | Response false _ => fallbackState
  | Response true None => fallbackState
  | Response true (Some bitcoin) =>
      match match bitcoin with Some b => usd b | None => None end with
      | None => fallbackState
      | Some usdPrice =>
          if negb (JsMath.truthy usdPrice) || leZero usdPrice
          then fallbackState
          else
            let updatedIso :=
              match match bitcoin with
                    | Some b => last_updated_at b
                    | None => None
                    end with
              | Some seconds =>
                  if JsMath.truthy seconds then isoOfSeconds seconds
                  else Some nowIso
              | None => Some nowIso
              end in
            match updatedIso with
            | None => fallbackState
            | Some iso =>
                {| fetchedBtcPrice := usdPrice
                 ; btcPriceInput := toText usdPrice
                 ; btcUpdatedAt := Some iso
                 ; btcFetchWarning := None |}
            end
      end
  end.

(** [[...].filter(Boolean)] on an array of [string | null]: [null] and the
    empty string are dropped. *)
Definition filterBoolean (xs : list (option string)) : list string :=
  flat_map (fun x =>
              match x with
              | Some s => if String.eqb s "" then [] else [s]
              | None => []
              end) xs.

(** Lines 383-387. *)
Definition warnings (btcFetchWarning : option string) (scaleMode : ScaleMode)
    (btcPriceInput : string) : list string :=
  filterBoolean
    [ btcFetchWarning
    ; match scaleMode with log => Some logScaleWarning | linear => None end
    ; if leZero (Number btcPriceInput) then Some overrideWarning else None ].

End Builtins.

(** A price the projection can divide by: neither [NaN], nor zero, nor
    negative. *)
Definition positive (x : JsNumber) : Prop :=
  x = PosInfinity \/ exists q, x = Finite q /\ 0 < q.

End Price.

(** ** Vocabulary of the further statements *)

Module View.

(** The real cost the trajectory shows at year [t]. *)
Definition realAt (r : Trajectory.Result) (t : nat) : option Qc :=
  option_map Trajectory.real (nth_error (Trajectory.data r) t).

(** What the two portfolio variants both show for a period: year, ratio,
    nominal expense and portfolio balance. *)
Definition commonOfLifespan (p : Lifespan.YearPoint) : nat * Qc * Qc * Qc :=
  (Lifespan.year p, Lifespan.ratio p, Lifespan.E_nom_usd p, Lifespan.P_usd p).

Definition commonOfAssetAdjusted (p : AssetAdjusted.YearPoint)
  : nat * Qc * Qc * Qc :=
  (AssetAdjusted.year p, AssetAdjusted.ratio p,
   AssetAdjusted.nominalExpense p, AssetAdjusted.portfolio p).

(** What one turn of the two portfolio loops keeps equal, for any rates. *)
Definition agree (s1 : Lifespan.LoopState) (s2 : AssetAdjusted.LoopState)
  : Prop :=
  Lifespan.portfolioUsd s1 = AssetAdjusted.portfolioNow s2
  /\ Lifespan.depletion s1 = AssetAdjusted.depletion s2
  /\ Lifespan.runningUsdExpensesTotal s1 = AssetAdjusted.runningNominalTotal s2
  /\ map commonOfLifespan (Lifespan.points s1)
     = map commonOfAssetAdjusted (AssetAdjusted.points s2).

(** A value a range slider with step [0.1] can hold between [lo / 10] and
    [hi / 10]: the [n]-th tenth, [lo <= n <= hi]. *)
Definition sliderValue (lo hi : Z) (x : Qc) : Prop :=
  exists n : Z, (lo <= n <= hi)%Z /\ x = Num.lit n 10.

(** The values [btcFetchWarning] takes in the component: [null] or one of
    its two messages. *)
Definition heldWarning (fw : option string) : Prop :=
  fw = None \/ fw = Some Price.fallbackPendingWarning
  \/ fw = Some Price.fetchFailedWarning.

End View.

(** ** Vocabulary of the statements *)

Module Stmt.

(** The sum of a list of numbers. *)
Definition sum (xs : list Qc) : Qc := fold_right Qcplus 0 xs.

(** [x] agrees with the printed decimal [c] up to [tol]. *)
Definition within (x c tol : Qc) : Prop := c - tol <= x /\ x <= c + tol.

(** The running portfolio balance the series shows at period [k]. *)
Definition balanceAt (p : Lifespan.Projection) (k : nat) : option Qc :=
  option_map Lifespan.P_usd (nth_error (Lifespan.series p) k).

(** The ratio the series shows at period [k]. *)
Definition ratioAt (p : Lifespan.Projection) (k : nat) : option Qc :=
  option_map Lifespan.ratio (nth_error (Lifespan.series p) k).


(** The point the portfolio loop pushes at index [k] when the running
    balance after that turn is [bal]. *)
Definition pointAt (i a E0 : Qc) (k : nat) (bal : Qc) : Lifespan.YearPoint :=
  {| Lifespan.year := k
   ; Lifespan.ratio := Lifespan.ratioBase i a ^ k
   ; Lifespan.E_nom_usd := E0 * (1 + i) ^ k
   ; Lifespan.P_usd := bal
   ; Lifespan.E_btc := E0 * (1 + i) ^ k / (1 + a) ^ k
   ; Lifespan.P_btc := bal / (1 + a) ^ k |}.

(** A parsed override that the guard of [effectiveBtcPrice] turns down. *)
Definition nonFinite (x : Cumulative.JsNumber) : Prop :=
  x = Cumulative.PosInfinity \/ x = Cumulative.NegInfinity \/ x = Cumulative.NaN.

Definition nonPositive (x : Cumulative.JsNumber) : Prop :=
  x = Cumulative.NegInfinity \/ exists q, x = Cumulative.Finite q /\ q <= 0.

Definition finitePositive (x : Cumulative.JsNumber) : Prop :=
  exists q, x = Cumulative.Finite q /\ 0 < q.

End Stmt.

(** ** Arithmetic and loop lemmas *)

Section NumFacts.

Lemma leb_le (x y : Qc) : Num.leb x y = true <-> x <= y.
Proof. unfold Num.leb, Qcle. apply Qle_bool_iff. Qed.

Lemma leb_gt (x y : Qc) : Num.leb x y = false <-> y < x.
Proof.
  split; intro H.
  - apply Qcnot_le_lt. intro Hle. apply leb_le in Hle. congruence.
  - destruct (Num.leb x y) eqn:E; [|reflexivity].
    apply leb_le in E. exfalso. exact (Qclt_not_le _ _ H E).
Qed.

Lemma gtb_gt (x y : Qc) : Num.gtb x y = true <-> y < x.
Proof.
  unfold Num.gtb. rewrite negb_true_iff. apply leb_gt.
Qed.

Lemma this_inj_list (xs ys : list Qc) :
  map this xs = map this ys -> xs = ys.
Proof.
  revert ys. induction xs as [|x xs IH]; intros [|y ys] H; try discriminate.
  - reflexivity.
  - cbn in H. injection H as Hx Hxs. f_equal; [now apply Qc_decomp | now apply IH].
Qed.

Lemma of_nat_pos (n : nat) : (0 < n)%nat -> 0 < Num.of_nat n.
Proof.
  intro H. unfold Num.of_nat, Qclt. cbn [this Q2Qc].
  rewrite !Qred_correct. unfold Qlt. cbn. lia.
Qed.

Lemma of_nat_nonzero (n : nat) : (0 < n)%nat -> Num.of_nat n <> 0.
Proof.
  intros H E. apply of_nat_pos in H. rewrite E in H.
  exact (Qclt_not_eq _ _ H eq_refl).
Qed.

Lemma rate_onto (x : Qc) : Lifespan.rate (x * Num.lit 100 1) = x.
Proof.
  unfold Lifespan.rate. field. intro E. discriminate E.
Qed.

Lemma sum_snoc (xs : list Qc) (x : Qc) :
  Stmt.sum (xs ++ [x]) = Stmt.sum xs + x.
Proof.
  unfold Stmt.sum. induction xs as [|y ys IH]; cbn [app fold_right].
  - ring.
  - rewrite IH. ring.
Qed.

Lemma filter_map_all {A B : Type} (f : B -> bool) (g : A -> B) (l : list A) :
  (forall x, In x l -> f (g x) = true) -> filter f (map g l) = map g l.
Proof.
  induction l as [|x xs IH]; intro H.
  - reflexivity.
  - cbn [map filter]. rewrite (H x (or_introl eq_refl)).
    f_equal. apply IH. intros y Hy. apply H. now right.
Qed.

Lemma forUpTo_0 {S : Type} (body : nat -> S -> S) (init : S) :
  Num.forUpTo 0 body init = body 0%nat init.
Proof. reflexivity. Qed.

Lemma forUpTo_S {S : Type} (n : nat) (body : nat -> S -> S) (init : S) :
  Num.forUpTo (Datatypes.S n) body init
  = body (Datatypes.S n) (Num.forUpTo n body init).
Proof.
  unfold Num.forUpTo.
  replace (Datatypes.S n + 1)%nat with (Datatypes.S (n + 1)) by lia.
  rewrite seq_S, fold_left_app. cbn [fold_left].
  replace (0 + (n + 1))%nat with (Datatypes.S n) by lia. reflexivity.
Qed.

End NumFacts.

Section LifespanLoop.

Import Lifespan.

Variables i a E0 P0 : Qc.

Abbreviation run := (runLoop i a E0 P0).
Abbreviation nominal k := (E0 * (1 + i) ^ k).

Lemma run_0 : run 0%nat = loopBody i a E0 0%nat (initState P0).
Proof. reflexivity. Qed.

Lemma run_S (n : nat) : run (S n) = loopBody i a E0 (S n) (run n).
Proof. unfold runLoop. apply forUpTo_S. Qed.

Lemma portfolio_0 : portfolioUsd (run 0%nat) = P0.
Proof. reflexivity. Qed.

Lemma portfolio_S (n : nat) :
  portfolioUsd (run (S n)) = portfolioUsd (run n) * (1 + a) - nominal (S n).
Proof. rewrite run_S. reflexivity. Qed.

Lemma points_0 : points (run 0%nat) = [Stmt.pointAt i a E0 0%nat P0].
Proof. reflexivity. Qed.

Lemma points_S (n : nat) :
  points (run (S n))
  = points (run n) ++ [Stmt.pointAt i a E0 (S n) (portfolioUsd (run (S n)))].
Proof. rewrite run_S. reflexivity. Qed.

Lemma points_length (n : nat) : List.length (points (run n)) = (n + 1)%nat.
Proof.
  induction n as [|n IH].
  - reflexivity.
  - rewrite points_S, length_app, IH. cbn. lia.
Qed.

Lemma points_nth (n k : nat) :
  (k <= n)%nat ->
  nth_error (points (run n)) k
  = Some (Stmt.pointAt i a E0 k (portfolioUsd (run k))).
Proof.
  induction n as [|n IH]; intro Hk.
  - replace k with 0%nat by lia. reflexivity.
  - rewrite points_S.
    destruct (Nat.eq_dec k (S n)) as [->|Hne].
    + rewrite nth_error_app2 by (rewrite points_length; lia).
      rewrite points_length.
      replace (S n - (n + 1))%nat with 0%nat by lia. reflexivity.
    + rewrite nth_error_app1 by (rewrite points_length; lia).
      apply IH. lia.
Qed.

Lemma points_nth_beyond (n k : nat) :
  (n < k)%nat -> nth_error (points (run n)) k = None.
Proof.
  intro H. apply nth_error_None. rewrite points_length. lia.
Qed.

Lemma points_years (n : nat) : map year (points (run n)) = seq 0 (n + 1).
Proof.
  induction n as [|n IH].
  - reflexivity.
  - rewrite points_S, map_app, IH.
    replace (S n + 1)%nat with (S (n + 1)) by lia.
    rewrite seq_S. cbn. repeat f_equal. lia.
Qed.

Lemma points_last (n : nat) :
  Num.lastOpt (points (run n))
  = Some (Stmt.pointAt i a E0 n (portfolioUsd (run n))).
Proof.
  unfold Num.lastOpt. rewrite points_length.
  replace (n + 1 - 1)%nat with n by lia. apply points_nth. lia.
Qed.

Lemma usd_total_0 : runningUsdExpensesTotal (run 0%nat) = 0.
Proof. reflexivity. Qed.

Lemma usd_total_S (n : nat) :
  runningUsdExpensesTotal (run (S n))
  = runningUsdExpensesTotal (run n) + nominal (S n).
Proof. rewrite run_S. reflexivity. Qed.

Lemma btc_total_0 : runningBtcExpensesTotal (run 0%nat) = 0.
Proof. reflexivity. Qed.

Lemma btc_total_S (n : nat) :
  runningBtcExpensesTotal (run (S n))
  = runningBtcExpensesTotal (run n) + nominal (S n) / (1 + a) ^ S n.
Proof. rewrite run_S. reflexivity. Qed.

Lemma usd_total_sum (n : nat) :
  runningUsdExpensesTotal (run n)
  = Stmt.sum (map (fun k => nominal k) (seq 1 n)).
Proof.
  induction n as [|n IH].
  - reflexivity.
  - rewrite usd_total_S, seq_S, map_app. cbn [map].
    rewrite sum_snoc, IH. reflexivity.
Qed.

Lemma btc_total_sum (n : nat) :
  runningBtcExpensesTotal (run n)
  = Stmt.sum (map (fun k => nominal k / (1 + a) ^ k) (seq 1 n)).
Proof.
  induction n as [|n IH].
  - reflexivity.
  - rewrite btc_total_S, seq_S, map_app. cbn [map].
    rewrite sum_snoc, IH. reflexivity.
Qed.

Lemma points_tail (n : nat) :
  tl (points (run n))
  = map (fun k => Stmt.pointAt i a E0 k (portfolioUsd (run k))) (seq 1 n).
Proof.
  induction n as [|n IH].
  - reflexivity.
  - rewrite points_S, seq_S, map_app. cbn [map]. rewrite <- IH.
    destruct (points (run n)) as [|p ps] eqn:E.
    + pose proof (points_length n) as L. rewrite E in L. cbn in L. lia.
    + reflexivity.
Qed.

Lemma depletion_0 : depletion (run 0%nat) = None.
Proof. reflexivity. Qed.

Lemma depletion_S (n : nat) :
  depletion (run (S n))
  = match depletion (run n) with
    | None => if Num.leb (portfolioUsd (run (S n))) 0 then Some (S n) else None
    | Some d => Some d
    end.
Proof. rewrite !run_S. reflexivity. Qed.

Lemma depletion_turn_kept (k : nat) (st : LoopState) (d : nat) :
  depletion st = Some d -> depletion (loopBody i a E0 k st) = Some d.
Proof.
  intro H. unfold loopBody. cbn [depletion]. rewrite H.
  now destruct (0 <? k)%nat.
Qed.

Lemma depletion_kept (n m d : nat) :
  (n <= m)%nat -> depletion (run n) = Some d -> depletion (run m) = Some d.
Proof.
  intros Hnm Hd. induction Hnm as [|m Hnm IH].
  - exact Hd.
  - rewrite depletion_S, IH. reflexivity.
Qed.

Lemma depletion_none (n : nat) :
  depletion (run n) = None
  <-> forall k, (1 <= k <= n)%nat -> 0 < portfolioUsd (run k).
Proof.
  induction n as [|n IH].
  - split; [intros _ k Hk; lia | reflexivity].
  - rewrite depletion_S. split.
    + intros H k Hk.
      destruct (depletion (run n)) as [d|] eqn:Ed; [discriminate|].
      destruct (Num.leb (portfolioUsd (run (S n))) 0) eqn:El; [discriminate|].
      destruct (Nat.eq_dec k (S n)) as [->|Hne].
      * now apply leb_gt.
      * apply IH; [reflexivity | lia].
    + intro H.
      assert (Hn : depletion (run n) = None) by (apply IH; intros k Hk; apply H; lia).
      rewrite Hn.
      assert (Hs : Num.leb (portfolioUsd (run (S n))) 0 = false)
        by (apply leb_gt, H; lia).
      now rewrite Hs.
Qed.

Lemma depletion_some (n d : nat) :
  depletion (run n) = Some d
  <-> (1 <= d <= n)%nat /\ portfolioUsd (run d) <= 0
      /\ forall j, (1 <= j < d)%nat -> 0 < portfolioUsd (run j).
Proof.
  revert d. induction n as [|n IH]; intro d.
  - rewrite depletion_0. split; [discriminate | intros [H _]; lia].
  - rewrite depletion_S.
    destruct (depletion (run n)) as [d'|] eqn:Ed.
    + split.
      * intro H. injection H as <-.
        destruct (proj1 (IH d') eq_refl) as (Hr & Hle & Hlt).
        repeat split; [lia | lia | exact Hle | exact Hlt].
      * intros (Hr & Hle & Hlt).
        destruct (proj1 (IH d') eq_refl) as (Hr' & Hle' & Hlt').
        destruct (Nat.lt_trichotomy d d') as [Hc|[Hc|Hc]].
        -- exfalso. apply (Qclt_not_le _ _ (Hlt' d (conj (proj1 Hr) Hc)) Hle).
        -- now subst.
        -- exfalso. apply (Qclt_not_le _ _ (Hlt d' (conj (proj1 Hr') Hc)) Hle').
    + pose proof (proj1 (depletion_none n) Ed) as Hpos.
      destruct (Num.leb (portfolioUsd (run (S n))) 0) eqn:El.
      * split.
        -- intro H. injection H as <-.
           repeat split; [lia | lia | now apply leb_le |].
           intros j Hj. apply Hpos. lia.
        -- intros (Hr & Hle & Hlt).
           destruct (Nat.eq_dec d (S n)) as [->|Hne]; [reflexivity|].
           exfalso. apply (Qclt_not_le _ _ (Hpos d ltac:(lia)) Hle).
      * split; [discriminate|].
        intros (Hr & Hle & Hlt). exfalso.
        destruct (Nat.eq_dec d (S n)) as [->|Hne].
        -- apply leb_gt in El. exact (Qclt_not_le _ _ El Hle).
        -- apply (Qclt_not_le _ _ (Hpos d ltac:(lia)) Hle).
Qed.

End LifespanLoop.

(** ** The portfolio projection: what [project] returns *)

Section LifespanProject.

Import Lifespan.

Variables (inflationPercent assetGrowthPercent : Qc) (T : nat) (E0 P0 : Qc).

Abbreviation i := (rate inflationPercent).
Abbreviation a := (rate assetGrowthPercent).
Abbreviation p := (project inflationPercent assetGrowthPercent T E0 P0).

Lemma project_series : series p = points (runLoop i a E0 P0 T).
Proof. reflexivity. Qed.

Lemma project_depletionYear : depletionYear p = depletion (runLoop i a E0 P0 T).
Proof. reflexivity. Qed.

Lemma project_totalUsd :
  totalExpensesUsd p = runningUsdExpensesTotal (runLoop i a E0 P0 T).
Proof. reflexivity. Qed.

Lemma project_totalBtc :
  totalExpensesBtc p = runningBtcExpensesTotal (runLoop i a E0 P0 T).
Proof. reflexivity. Qed.

Lemma project_point (k : nat) :
  (k <= T)%nat ->
  nth_error (series p) k
  = Some (Stmt.pointAt i a E0 k (portfolioUsd (runLoop i a E0 P0 k))).
Proof. intro H. rewrite project_series. now apply points_nth. Qed.

Lemma project_balanceAt (k : nat) :
  (k <= T)%nat ->
  Stmt.balanceAt p k = Some (portfolioUsd (runLoop i a E0 P0 k)).
Proof.
  intro H. unfold Stmt.balanceAt. now rewrite project_point.
Qed.

Lemma project_balanceAt_inv (k : nat) (b : Qc) :
  Stmt.balanceAt p k = Some b ->
  (k <= T)%nat /\ b = portfolioUsd (runLoop i a E0 P0 k).
Proof.
  intro H. destruct (le_lt_dec k T) as [Hle|Hgt].
  - rewrite project_balanceAt in H by assumption. split; congruence.
  - unfold Stmt.balanceAt in H. rewrite project_series in H.
    rewrite points_nth_beyond in H by assumption. discriminate.
Qed.

Lemma project_ratioAt (k : nat) :
  (k <= T)%nat -> Stmt.ratioAt p k = Some (ratioBase i a ^ k).
Proof.
  intro H. unfold Stmt.ratioAt. now rewrite project_point.
Qed.


End LifespanProject.

(** ** Claims about the portfolio projection *)

(** C1.  For rates [i] and [a] with [a <> -1] and every horizon [T], the
    Lifespan Inflation Factor that the projection returns is
    [((1+i)/(1+a))^T - 1], and it is the ratio of the series point at
    [k = T], which is [((1+i)/(1+a))^T], minus one. *)
Theorem lif_closed_form :
  forall (inflationPercent assetGrowthPercent : Qc) (T : nat) (E0 P0 : Qc),
    let i := Lifespan.rate inflationPercent in
    let a := Lifespan.rate assetGrowthPercent in
    let p := Lifespan.project inflationPercent assetGrowthPercent T E0 P0 in
    a <> - (1) ->
    Lifespan.lifespanInflationFactor p = ((1 + i) / (1 + a)) ^ T - 1
    /\ exists r,
         Stmt.ratioAt p T = Some r
         /\ r = ((1 + i) / (1 + a)) ^ T
         /\ Lifespan.lifespanInflationFactor p = r - 1.
Proof.
  intros ip ap T E0 P0 i a p _. split.
  - reflexivity.
  - exists (Lifespan.ratioBase i a ^ T). split; [|split].
    + apply project_ratioAt. lia.
    + reflexivity.
    + reflexivity.
Qed.

Lemma lif_closed_form_witness :
  let i := Lifespan.rate (Num.lit 3 1) in
  let a := Lifespan.rate (Num.lit 7 1) in
  let p := Lifespan.project (Num.lit 3 1) (Num.lit 7 1) 10
             (Num.lit 60000 1) (Num.lit 1000000 1) in
  Lifespan.lifespanInflationFactor p = ((1 + i) / (1 + a)) ^ 10 - 1
  /\ exists r,
       Stmt.ratioAt p 10 = Some r
       /\ r = ((1 + i) / (1 + a)) ^ 10
       /\ Lifespan.lifespanInflationFactor p = r - 1.
Proof.
  apply (lif_closed_form (Num.lit 3 1) (Num.lit 7 1) 10
           (Num.lit 60000 1) (Num.lit 1000000 1)).
  intro E. apply (f_equal this) in E. vm_compute in E. discriminate E.
Defined.

(** C2.  For every horizon [T] the series has exactly [T+1] points, their
    period indices are [0, 1, ..., T] (so strictly increasing), and the first
    point has ratio [1] and nominal expense [E0]. *)
Theorem series_shape :
  forall (inflationPercent assetGrowthPercent : Qc) (T : nat) (E0 P0 : Qc),
    let s := Lifespan.series
               (Lifespan.project inflationPercent assetGrowthPercent T E0 P0) in
    List.length s = (T + 1)%nat
    /\ map Lifespan.year s = seq 0 (T + 1)
    /\ (forall j k pj pk, (j < k)%nat ->
          nth_error s j = Some pj -> nth_error s k = Some pk ->
          (Lifespan.year pj < Lifespan.year pk)%nat)
    /\ exists p0,
         hd_error s = Some p0
         /\ Lifespan.year p0 = 0%nat
         /\ Lifespan.ratio p0 = 1
         /\ Lifespan.E_nom_usd p0 = E0.
Proof.
  intros ip ap T E0 P0 s. subst s. rewrite project_series.
  split; [apply points_length|]. split; [apply points_years|]. split.
  - intros j k pj pk Hjk Hj Hk.
    assert (Hk' : (k <= T)%nat).
    { destruct (le_lt_dec k T) as [H|H]; [exact H|].
      rewrite points_nth_beyond in Hk by exact H. discriminate Hk. }
    rewrite points_nth in Hj by lia. rewrite points_nth in Hk by lia.
    injection Hj as <-. injection Hk as <-. exact Hjk.
  - pose proof (points_nth (Lifespan.rate ip) (Lifespan.rate ap) E0 P0 T 0
                  ltac:(lia)) as H0.
    destruct (Lifespan.points _) as [|p0 ps]; [discriminate|].
    cbn in H0. injection H0 as ->.
    eexists. split; [reflexivity|]. cbn. repeat split. ring.
Qed.

(** C3.  The balance of the series starts at the starting portfolio [P0]
    and, for every [k] with [1 <= k <= T], satisfies
    [balance(k) = balance(k-1)*(1+a) - nominalExpense(k)], where
    [nominalExpense(k) = E0*(1+i)^k] is the nominal expense of point [k]. *)
Theorem balance_recurrence :
  forall (inflationPercent assetGrowthPercent : Qc) (T : nat) (E0 P0 : Qc)
         (k : nat),
    let i := Lifespan.rate inflationPercent in
    let a := Lifespan.rate assetGrowthPercent in
    let p := Lifespan.project inflationPercent assetGrowthPercent T E0 P0 in
    (1 <= k <= T)%nat ->
    Stmt.balanceAt p 0 = Some P0
    /\ exists prev cur nominalExpense,
         Stmt.balanceAt p (k - 1) = Some prev
         /\ Stmt.balanceAt p k = Some cur
         /\ option_map Lifespan.E_nom_usd (nth_error (Lifespan.series p) k)
            = Some nominalExpense
         /\ nominalExpense = E0 * (1 + i) ^ k
         /\ cur = prev * (1 + a) - nominalExpense.
Proof.
  intros ip ap T E0 P0 k i a p Hk. split.
  - subst p. rewrite project_balanceAt by lia. reflexivity.
  - exists (Lifespan.portfolioUsd (Lifespan.runLoop i a E0 P0 (k - 1))),
           (Lifespan.portfolioUsd (Lifespan.runLoop i a E0 P0 k)),
           (E0 * (1 + i) ^ k).
    subst p. rewrite !project_balanceAt by lia. rewrite project_point by lia.
    repeat split.
    destruct k as [|k]; [lia|].
    replace (S k - 1)%nat with k by lia. apply portfolio_S.
Qed.

Lemma balance_recurrence_witness :
  let i := Lifespan.rate (Num.lit 3 1) in
  let a := Lifespan.rate (Num.lit 7 1) in
  let p := Lifespan.project (Num.lit 3 1) (Num.lit 7 1) 10
             (Num.lit 60000 1) (Num.lit 1000000 1) in
  Stmt.balanceAt p 0 = Some (Num.lit 1000000 1)
  /\ exists prev cur nominalExpense,
       Stmt.balanceAt p (4 - 1) = Some prev
       /\ Stmt.balanceAt p 4 = Some cur
       /\ option_map Lifespan.E_nom_usd (nth_error (Lifespan.series p) 4)
          = Some nominalExpense
       /\ nominalExpense = Num.lit 60000 1 * (1 + i) ^ 4
       /\ cur = prev * (1 + a) - nominalExpense.
Proof.
  apply (balance_recurrence (Num.lit 3 1) (Num.lit 7 1) 10
           (Num.lit 60000 1) (Num.lit 1000000 1) 4).
  lia.
Defined.

(** C4.  The depletion year is the smallest [k] in [1..T] whose balance is
    [<= 0]; it is "not depleted" exactly when every balance in [1..T] is
    positive; once recorded, no later turn of the loop and no longer horizon
    changes it; and for [P0 = 100], [E0 = 50], [a = 0], [i = 0] the balances
    are [100, 50, 0] and the depletion year is [2]. *)
Theorem depletion_first_nonpositive :
  forall (inflationPercent assetGrowthPercent : Qc) (T : nat) (E0 P0 : Qc),
    let project := Lifespan.project inflationPercent assetGrowthPercent in
    let p := project T E0 P0 in
    (forall d,
        Lifespan.depletionYear p = Some d
        <-> (1 <= d <= T)%nat
            /\ (exists b, Stmt.balanceAt p d = Some b /\ b <= 0)
            /\ (forall j b, (1 <= j < d)%nat ->
                  Stmt.balanceAt p j = Some b -> 0 < b))
    /\ (Lifespan.depletionYear p = None
        <-> forall k b, (1 <= k <= T)%nat ->
              Stmt.balanceAt p k = Some b -> 0 < b)
    /\ (forall k st d,
          Lifespan.depletion st = Some d ->
          Lifespan.depletion
            (Lifespan.loopBody (Lifespan.rate inflationPercent)
               (Lifespan.rate assetGrowthPercent) E0 k st) = Some d)
    /\ (forall T' d, (T <= T')%nat ->
          Lifespan.depletionYear p = Some d ->
          Lifespan.depletionYear (project T' E0 P0) = Some d)
    /\ (let ex := Lifespan.project 0 0 (2 + T) (Num.lit 50 1) (Num.lit 100 1) in
        firstn 3 (map Lifespan.P_usd (Lifespan.series ex))
        = [Num.lit 100 1; Num.lit 50 1; 0]
        /\ Lifespan.depletionYear ex = Some 2%nat).
Proof.
  intros ip ap T E0 P0 project p. subst project p.
  split; [|split; [|split; [|split]]].
  - intro d. rewrite project_depletionYear, depletion_some. split.
    + intros (Hr & Hle & Hlt). split; [exact Hr|]. split.
      * eexists. split; [apply project_balanceAt; lia | exact Hle].
      * intros j b Hj Hb. apply project_balanceAt_inv in Hb as [_ ->].
        now apply Hlt.
    + intros (Hr & (b & Hb & Hle) & Hlt). split; [exact Hr|]. split.
      * apply project_balanceAt_inv in Hb as [_ ->]. exact Hle.
      * intros j Hj. apply (Hlt j); [exact Hj|].
        apply project_balanceAt. lia.
  - rewrite project_depletionYear, depletion_none. split.
    + intros H k b Hk Hb. apply project_balanceAt_inv in Hb as [_ ->].
      now apply H.
    + intros H k Hk. apply (H k); [exact Hk|]. now apply project_balanceAt.
  - intros k st d. apply depletion_turn_kept.
  - intros T' d HT. rewrite !project_depletionYear. now apply depletion_kept.
  - cbv zeta. split.
    + set (r := Lifespan.runLoop (Lifespan.rate 0) (Lifespan.rate 0)
                  (Num.lit 50 1) (Num.lit 100 1)).
      rewrite project_series. fold r.
      assert (H3 : firstn 3 (Lifespan.points (r (2 + T)%nat))
                   = Lifespan.points (r 2%nat)).
      { clear. induction T as [|n IH]; [reflexivity|].
        unfold r in *. replace (2 + S n)%nat with (S (2 + n)) by lia.
        rewrite points_S, firstn_app, IH, points_length.
        replace (3 - (2 + n + 1))%nat with 0%nat by lia.
        cbn [firstn]. apply app_nil_r. }
      rewrite firstn_map, H3. apply this_inj_list. vm_compute. reflexivity.
    + rewrite project_depletionYear.
      apply (depletion_kept _ _ _ _ 2%nat); [lia|]. vm_compute. reflexivity.
Qed.

Lemma divide_by_nonzero (x y : Qc) :
  y <> 0 -> JsMath.divide x y = Cumulative.Finite (x / y).
Proof.
  intro Hy. unfold JsMath.divide.
  destruct (Qc_eq_bool y 0) eqn:E; [|reflexivity].
  apply Qc_eq_bool_correct in E. contradiction.
Qed.

(** C7.  The average annual expenses are the number [0] when [T = 0],
    where the division the guard skips would have given [NaN] ([0 / 0]);
    when [T > 0] they are the running total divided by [T], a division whose
    divisor is not zero.  So no division by zero occurs for any horizon. *)
Theorem average_guarded :
  forall (inflationPercent assetGrowthPercent : Qc) (T : nat) (E0 P0 : Qc),
    let p := Lifespan.project inflationPercent assetGrowthPercent T E0 P0 in
    (T = 0%nat ->
       Lifespan.avgAnnualExpenseUsd p = Cumulative.Finite 0
       /\ Lifespan.avgAnnualExpenseBtc p = Cumulative.Finite 0
       /\ JsMath.divide (Lifespan.totalExpensesUsd p) (Num.of_nat T)
          = Cumulative.NaN
       /\ JsMath.divide (Lifespan.totalExpensesBtc p) (Num.of_nat T)
          = Cumulative.NaN)
    /\ ((0 < T)%nat ->
          Num.of_nat T <> 0
          /\ Lifespan.avgAnnualExpenseUsd p
             = Cumulative.Finite (Lifespan.totalExpensesUsd p / Num.of_nat T)
          /\ Lifespan.avgAnnualExpenseBtc p
             = Cumulative.Finite (Lifespan.totalExpensesBtc p / Num.of_nat T)).
Proof.
  intros ip ap T E0 P0 p. split.
  - intros ->. repeat split; reflexivity.
  - intro HT. pose proof (of_nat_nonzero T HT) as Hnz. split; [exact Hnz|].
    subst p. unfold Lifespan.project. cbn [Lifespan.avgAnnualExpenseUsd
      Lifespan.avgAnnualExpenseBtc Lifespan.totalExpensesUsd
      Lifespan.totalExpensesBtc].
    destruct (Nat.ltb_spec 0 T) as [_|H]; [|lia].
    rewrite !divide_by_nonzero by exact Hnz. split; reflexivity.
Qed.

Lemma average_guarded_witness :
  let p0 := Lifespan.project (Num.lit 3 1) (Num.lit 7 1) 0
              (Num.lit 60000 1) (Num.lit 1000000 1) in
  let p := Lifespan.project (Num.lit 3 1) (Num.lit 7 1) 10
             (Num.lit 60000 1) (Num.lit 1000000 1) in
  (Lifespan.avgAnnualExpenseUsd p0 = Cumulative.Finite 0
   /\ Lifespan.avgAnnualExpenseBtc p0 = Cumulative.Finite 0
   /\ JsMath.divide (Lifespan.totalExpensesUsd p0) (Num.of_nat 0)
      = Cumulative.NaN
   /\ JsMath.divide (Lifespan.totalExpensesBtc p0) (Num.of_nat 0)
      = Cumulative.NaN)
  /\ (Num.of_nat 10 <> 0
      /\ Lifespan.avgAnnualExpenseUsd p
         = Cumulative.Finite (Lifespan.totalExpensesUsd p / Num.of_nat 10)
      /\ Lifespan.avgAnnualExpenseBtc p
         = Cumulative.Finite (Lifespan.totalExpensesBtc p / Num.of_nat 10)).
Proof.
  split.
  - apply (proj1 (average_guarded (Num.lit 3 1) (Num.lit 7 1) 0
                    (Num.lit 60000 1) (Num.lit 1000000 1))).
    reflexivity.
  - apply (proj2 (average_guarded (Num.lit 3 1) (Num.lit 7 1) 10
                    (Num.lit 60000 1) (Num.lit 1000000 1))).
    lia.
Defined.

(** ** The cumulative-cost loop *)

Section CumulativeLoop.

Import Cumulative.

Variables i a E0 price : Qc.

Abbreviation run := (runLoop i a E0 price).
Abbreviation nominal k := (E0 * (1 + i) ^ k).
Abbreviation inAsset k := (E0 * (1 + i) ^ k / (price * (1 + a) ^ k)).
Abbreviation pointOf k :=
  (mkYearPoint k (runningUsdTotal (run k)) (runningBtcTotal (run k))).

Lemma cum_run_S (n : nat) :
  run (S n) = loopBody i a E0 price (S n) (run n).
Proof. unfold runLoop. apply forUpTo_S. Qed.

Lemma cum_usd_S (n : nat) :
  runningUsdTotal (run (S n)) = runningUsdTotal (run n) + nominal (S n).
Proof. rewrite cum_run_S. reflexivity. Qed.

Lemma cum_btc_S (n : nat) :
  runningBtcTotal (run (S n)) = runningBtcTotal (run n) + inAsset (S n).
Proof. rewrite cum_run_S. reflexivity. Qed.

Lemma cum_usd_sum (n : nat) :
  runningUsdTotal (run n) = Stmt.sum (map (fun k => nominal k) (seq 1 n)).
Proof.
  induction n as [|n IH].
  - reflexivity.
  - rewrite cum_usd_S, seq_S, map_app. cbn [map].
    rewrite sum_snoc, IH. reflexivity.
Qed.

Lemma cum_btc_sum (n : nat) :
  runningBtcTotal (run n) = Stmt.sum (map (fun k => inAsset k) (seq 1 n)).
Proof.
  induction n as [|n IH].
  - reflexivity.
  - rewrite cum_btc_S, seq_S, map_app. cbn [map].
    rewrite sum_snoc, IH. reflexivity.
Qed.

Lemma cum_points_S (n : nat) :
  points (run (S n)) = points (run n) ++ [pointOf (S n)].
Proof. rewrite cum_run_S. reflexivity. Qed.

(** The array after the loop: the year-0 point, whose sums are empty, then
    one point per period [1..n]. *)
Lemma cum_points_shape (n : nat) :
  points (run n)
  = mkYearPoint 0 0 0 :: map (fun k => pointOf k) (seq 1 n).
Proof.
  induction n as [|n IH].
  - reflexivity.
  - rewrite cum_points_S, IH, seq_S, map_app. reflexivity.
Qed.

Lemma cum_points_length (n : nat) : List.length (points (run n)) = (n + 1)%nat.
Proof.
  rewrite cum_points_shape. cbn [List.length].
  rewrite length_map, length_seq. lia.
Qed.

Lemma cum_points_nth (n k : nat) :
  (k <= n)%nat -> nth_error (points (run n)) k = Some (pointOf k).
Proof.
  intro Hk. rewrite cum_points_shape. destruct k as [|k].
  - reflexivity.
  - cbn [nth_error]. rewrite nth_error_map.
    rewrite nth_error_seq. destruct (Nat.ltb_spec k n) as [_|H]; [|lia].
    reflexivity.
Qed.

Lemma cum_points_last (n : nat) :
  Num.lastOpt (points (run n)) = Some (pointOf n).
Proof.
  unfold Num.lastOpt. rewrite cum_points_length.
  replace (n + 1 - 1)%nat with n by lia. apply cum_points_nth. lia.
Qed.

Lemma cum_points_log (n : nat) :
  trimmedPoints log (points (run n)) = tl (points (run n)).
Proof.
  rewrite cum_points_shape. unfold trimmedPoints. cbn [filter tl].
  change (0 <? year (mkYearPoint 0 0 0))%nat with false. cbv iota.
  apply filter_map_all. intros k Hk. apply in_seq in Hk.
  cbn [year]. apply Nat.ltb_lt. lia.
Qed.

Lemma cum_positives_usd (n : nat) :
  filter (fun value => Num.gtb value 0)
    (map cumUsd (trimmedPoints linear (points (run n))))
  = filter (fun value => Num.gtb value 0)
      (map cumUsd (trimmedPoints log (points (run n)))).
Proof.
  rewrite cum_points_log, cum_points_shape.
  cbn [trimmedPoints map filter tl cumUsd].
  change (Num.gtb 0 0) with false. reflexivity.
Qed.

Lemma cum_positives_btc (n : nat) :
  filter (fun value => Num.gtb value 0)
    (map cumBtc (trimmedPoints linear (points (run n))))
  = filter (fun value => Num.gtb value 0)
      (map cumBtc (trimmedPoints log (points (run n)))).
Proof.
  rewrite cum_points_log, cum_points_shape.
  cbn [trimmedPoints map filter tl cumBtc].
  change (Num.gtb 0 0) with false. reflexivity.
Qed.

End CumulativeLoop.

(** ** Claims about totals and about the chart series *)

(** C6.  The running totals add one flow per period [k] in [1..T] and none
    for period 0: the total nominal expenses are the sum of
    [nominalExpense(k) = E0*(1+i)^k] over [k = 1..T], which is the sum over
    the series without its first point, and likewise for the
    asset-denominated total; in the cumulative-cost variant the point of
    period [k] carries the sums over [1..k]; and for [T = 0] every total
    is [0]. *)
Theorem totals_skip_period_zero :
  forall (inflationPercent assetGrowthPercent : Qc) (T : nat)
         (E0 P0 price : Qc) (mode : Cumulative.ScaleMode),
    let i := Lifespan.rate inflationPercent in
    let a := Lifespan.rate assetGrowthPercent in
    let nominalExpense := fun k : nat => E0 * (1 + i) ^ k in
    let inAsset := fun k : nat => nominalExpense k / (price * (1 + a) ^ k) in
    let p := Lifespan.project inflationPercent assetGrowthPercent T E0 P0 in
    let p0 := Lifespan.project inflationPercent assetGrowthPercent 0 E0 P0 in
    let c := Cumulative.project inflationPercent assetGrowthPercent T E0
               price mode in
    let c0 := Cumulative.project inflationPercent assetGrowthPercent 0 E0
                price mode in
    Lifespan.totalExpensesUsd p = Stmt.sum (map nominalExpense (seq 1 T))
    /\ Lifespan.totalExpensesUsd p
       = Stmt.sum (map Lifespan.E_nom_usd (tl (Lifespan.series p)))
    /\ Lifespan.totalExpensesBtc p
       = Stmt.sum (map Lifespan.E_btc (tl (Lifespan.series p)))
    /\ (forall k, (k <= T)%nat ->
          nth_error (Cumulative.series c) k
          = Some (Cumulative.mkYearPoint k
                    (Stmt.sum (map nominalExpense (seq 1 k)))
                    (Stmt.sum (map inAsset (seq 1 k)))))
    /\ Cumulative.cumUsdAtT c = Stmt.sum (map nominalExpense (seq 1 T))
    /\ Cumulative.cumBtcAtT c = Stmt.sum (map inAsset (seq 1 T))
    /\ Lifespan.totalExpensesUsd p0 = 0
    /\ Lifespan.totalExpensesBtc p0 = 0
    /\ Cumulative.cumUsdAtT c0 = 0
    /\ Cumulative.cumBtcAtT c0 = 0.
Proof.
  intros ip ap T E0 P0 price mode i a nominalExpense inAsset p p0 c c0.
  assert (Hc : forall n, Num.lastOpt (Cumulative.series
                 (Cumulative.project ip ap n E0 price mode))
               = Some (Cumulative.mkYearPoint n
                         (Stmt.sum (map nominalExpense (seq 1 n)))
                         (Stmt.sum (map inAsset (seq 1 n))))).
  { intro n. change (Cumulative.series _)
      with (Cumulative.points (Cumulative.runLoop i a E0 price n)).
    rewrite cum_points_last, cum_usd_sum, cum_btc_sum. reflexivity. }
  repeat split.
  - subst p. rewrite project_totalUsd. apply usd_total_sum.
  - subst p. rewrite project_totalUsd, project_series, points_tail, map_map.
    apply usd_total_sum.
  - subst p. rewrite project_totalBtc, project_series, points_tail, map_map.
    apply btc_total_sum.
  - intros k Hk. change (Cumulative.series c)
      with (Cumulative.points (Cumulative.runLoop i a E0 price T)).
    rewrite cum_points_nth by exact Hk.
    rewrite cum_usd_sum, cum_btc_sum. reflexivity.
  - unfold c, Cumulative.project. cbn [Cumulative.cumUsdAtT].
    specialize (Hc T). cbn [Cumulative.project Cumulative.series] in Hc.
    fold i a. rewrite Hc. reflexivity.
  - unfold c, Cumulative.project. cbn [Cumulative.cumBtcAtT].
    specialize (Hc T). cbn [Cumulative.project Cumulative.series] in Hc.
    fold i a. rewrite Hc. reflexivity.
Qed.

(** C10.  In the cumulative-cost variant, under ['log'] the chart series is
    the computed series without its year-0 point ([T] points, none for
    [T = 0]); under ['linear'] it is the whole series of [T+1] points; the
    series and the summary values are the same under both modes. *)
Theorem chart_series_by_scale_mode :
  forall (inflationPercent assetGrowthPercent : Qc) (T : nat)
         (E0 price : Qc),
    let project := Cumulative.project inflationPercent assetGrowthPercent in
    let lin := project T E0 price Cumulative.linear in
    let lg := project T E0 price Cumulative.log in
    Cumulative.chartSeries lg = tl (Cumulative.series lg)
    /\ (forall pt, In pt (Cumulative.chartSeries lg)
          <-> In pt (Cumulative.series lg) /\ Cumulative.year pt <> 0%nat)
    /\ List.length (Cumulative.chartSeries lg) = T
    /\ Cumulative.chartSeries (project 0%nat E0 price Cumulative.log) = []
    /\ Cumulative.chartSeries lin = Cumulative.series lin
    /\ List.length (Cumulative.chartSeries lin) = (T + 1)%nat
    /\ Cumulative.series lg = Cumulative.series lin
    /\ Cumulative.cumUsdAtT lg = Cumulative.cumUsdAtT lin
    /\ Cumulative.cumBtcAtT lg = Cumulative.cumBtcAtT lin
    /\ Cumulative.lifespanInflationFactor lg
       = Cumulative.lifespanInflationFactor lin
    /\ Cumulative.minPositiveUsd lg = Cumulative.minPositiveUsd lin
    /\ Cumulative.minPositiveBtc lg = Cumulative.minPositiveBtc lin.
Proof.
  intros ip ap T E0 price project lin lg. subst project lin lg.
  set (i := Cumulative.rate ip). set (a := Cumulative.rate ap).
  unfold Cumulative.project. fold i a.
  cbn [Cumulative.chartSeries Cumulative.series Cumulative.cumUsdAtT
       Cumulative.cumBtcAtT Cumulative.lifespanInflationFactor
       Cumulative.minPositiveUsd Cumulative.minPositiveBtc].
  split; [apply cum_points_log|].
  split.
  { intro pt. unfold Cumulative.trimmedPoints. rewrite filter_In.
    rewrite Nat.ltb_lt. split; intros [H1 H2]; (split; [exact H1 | lia]). }
  split.
  { rewrite cum_points_log, cum_points_shape. cbn [tl].
    now rewrite length_map, length_seq. }
  split; [reflexivity|].
  split; [reflexivity|].
  split; [apply cum_points_length|].
  rewrite <- cum_positives_usd, <- cum_positives_btc.
  repeat split; reflexivity.
Qed.

(** ** Powers of a positive base *)

Section PowerFacts.

Lemma Qcinv_pos (x : Qc) : 0 < x -> 0 < / x.
Proof.
  unfold Qclt, Qcinv. cbn [this Q2Qc]. rewrite !Qred_correct.
  apply Qinv_lt_0_compat.
Qed.

Lemma Qcmult_pos (x y : Qc) : 0 < x -> 0 < y -> 0 < x * y.
Proof.
  intros Hx Hy. rewrite <- (Qcmult_0_l y). now apply Qcmult_lt_compat_r.
Qed.

Lemma Qcpower_gt_0 (r : Qc) (k : nat) : 0 < r -> 0 < r ^ k.
Proof.
  intro Hr. induction k as [|k IH]; cbn [Qcpower].
  - reflexivity.
  - now apply Qcmult_pos.
Qed.

Lemma succ_rate_pos (x : Qc) : - (1) < x -> 0 < 1 + x.
Proof.
  intro H. apply Qclt_minus_iff in H.
  replace (1 + x) with (x + - - (1)) by ring. exact H.
Qed.

Lemma succ_rate_lt (x y : Qc) : x < y -> 1 + x < 1 + y.
Proof.
  intro H. apply Qclt_minus_iff. apply Qclt_minus_iff in H.
  replace (1 + y + - (1 + x)) with (y + - x) by ring. exact H.
Qed.

Lemma ratioBase_pos (i a : Qc) :
  - (1) < i -> - (1) < a -> 0 < Lifespan.ratioBase i a.
Proof.
  intros Hi Ha. unfold Lifespan.ratioBase, Qcdiv.
  apply Qcmult_pos; [now apply succ_rate_pos | now apply Qcinv_pos, succ_rate_pos].
Qed.

Lemma ratioBase_gt_1 (i a : Qc) :
  - (1) < a -> a < i -> 1 < Lifespan.ratioBase i a.
Proof.
  intros Ha Hai. pose proof (succ_rate_pos a Ha) as Hpos.
  assert (E : (1 + a) * / (1 + a) = 1)
    by (apply Qcmult_inv_r; intro E; rewrite E in Hpos; discriminate Hpos).
  pose proof (Qcmult_lt_compat_r _ _ _ (Qcinv_pos _ Hpos) (succ_rate_lt _ _ Hai))
    as H.
  rewrite E in H. exact H.
Qed.

Lemma ratioBase_lt_1 (i a : Qc) :
  - (1) < a -> i < a -> Lifespan.ratioBase i a < 1.
Proof.
  intros Ha Hia. pose proof (succ_rate_pos a Ha) as Hpos.
  assert (E : (1 + a) * / (1 + a) = 1)
    by (apply Qcmult_inv_r; intro E; rewrite E in Hpos; discriminate Hpos).
  pose proof (Qcmult_lt_compat_r _ _ _ (Qcinv_pos _ Hpos) (succ_rate_lt _ _ Hia))
    as H.
  rewrite E in H. exact H.
Qed.

Lemma ratioBase_eq_1 (a : Qc) : - (1) < a -> Lifespan.ratioBase a a = 1.
Proof.
  intro Ha. pose proof (succ_rate_pos a Ha) as Hpos.
  unfold Lifespan.ratioBase, Qcdiv. apply Qcmult_inv_r.
  intro E. rewrite E in Hpos. discriminate Hpos.
Qed.

Lemma Qcpower_step_up (r : Qc) (k : nat) : 1 < r -> r ^ k < r ^ S k.
Proof.
  intro Hr. cbn [Qcpower].
  assert (Hpos : 0 < r ^ k)
    by (apply Qcpower_gt_0, Qclt_trans with 1; [reflexivity | exact Hr]).
  rewrite <- (Qcmult_1_l (r ^ k)) at 1.
  now apply Qcmult_lt_compat_r.
Qed.

Lemma Qcpower_step_down (r : Qc) (k : nat) : 0 < r -> r < 1 -> r ^ S k < r ^ k.
Proof.
  intros H0 H1. cbn [Qcpower].
  rewrite <- (Qcmult_1_l (r ^ k)) at 2.
  apply Qcmult_lt_compat_r; [now apply Qcpower_gt_0 | exact H1].
Qed.

Lemma Qcpower_increasing (r : Qc) (j k : nat) :
  1 < r -> (j < k)%nat -> r ^ j < r ^ k.
Proof.
  intros Hr Hjk. induction Hjk as [|k Hjk IH].
  - now apply Qcpower_step_up.
  - apply Qclt_trans with (r ^ k); [exact IH | now apply Qcpower_step_up].
Qed.

Lemma Qcpower_decreasing (r : Qc) (j k : nat) :
  0 < r -> r < 1 -> (j < k)%nat -> r ^ k < r ^ j.
Proof.
  intros H0 H1 Hjk. induction Hjk as [|k Hjk IH].
  - now apply Qcpower_step_down.
  - apply Qclt_trans with (r ^ k); [now apply Qcpower_step_down | exact IH].
Qed.

End PowerFacts.

(** ** Claims about the ratio series and the worked example *)

Lemma rate_lit_Q (n : Z) :
  (this (Lifespan.rate (Num.lit n 10)) == n # 1000)%Q.
Proof.
  unfold Lifespan.rate, Num.lit, Qcdiv, Qcmult, Qcinv. cbn [this Q2Qc].
  rewrite !Qred_correct. unfold Qeq, Qmult, Qinv. cbn. lia.
Qed.

Lemma rate_lit_gt (n : Z) :
  (-1000 < n)%Z -> - (1) < Lifespan.rate (Num.lit n 10).
Proof.
  intro H. unfold Qclt. rewrite rate_lit_Q. unfold Qcopp. cbn [this Q2Qc].
  rewrite !Qred_correct. unfold Qlt. cbn. lia.
Qed.

Lemma slider_rate_gt (lo hi : Z) (x : Qc) :
  (-1000 < lo)%Z -> View.sliderValue lo hi x -> - (1) < Lifespan.rate x.
Proof.
  intros Hlo (n & Hn & ->). apply rate_lit_gt. lia.
Qed.




(** C8, as the spec prints it, fails: for [i = 0.03], [a = 0.07], [T = 10],
    [E0 = 60000] the factor is not within [0.001] of [-0.322] and the final
    nominal expense is not within [0.01] of [80635.33]. *)
Lemma spec_example_digits_off :
  let p := Lifespan.project (Num.lit 3 1) (Num.lit 7 1) 10
             (Num.lit 60000 1) (Num.lit 1000000 1) in
  ~ Stmt.within (Lifespan.lifespanInflationFactor p)
      (Num.lit (-322) 1000) (Num.lit 1 1000)
  /\ ~ Stmt.within (Lifespan.finalAnnualExpenseUsd p)
         (Num.lit 8063533 100) (Num.lit 1 100).
Proof.
  split.
  - intros [_ H]. vm_compute in H. apply H. reflexivity.
  - intros [H _]. vm_compute in H. apply H. reflexivity.
Qed.

Lemma project_finalExpense
    (inflationPercent assetGrowthPercent : Qc) (T : nat) (E0 P0 : Qc) :
  Lifespan.finalAnnualExpenseUsd
    (Lifespan.project inflationPercent assetGrowthPercent T E0 P0)
  = E0 * (1 + Lifespan.rate inflationPercent) ^ T.
Proof.
  unfold Lifespan.project. cbn [Lifespan.finalAnnualExpenseUsd].
  rewrite points_last. reflexivity.
Qed.

(** C8, amended.  For [i = 0.03], [a = 0.07], [T = 10], [E0 = 60000] and any
    starting portfolio: the ratio base is [0.9626] to four decimals, the
    Lifespan Inflation Factor is [-0.3168] to four decimals (about [-32]
    percent), and the final nominal expense is [60000 * 1.03^10], which is
    [80634.98] to the cent. *)
Theorem spec_example_values :
  forall P0 : Qc,
    let i := Lifespan.rate (Num.lit 3 1) in
    let a := Lifespan.rate (Num.lit 7 1) in
    let p := Lifespan.project (Num.lit 3 1) (Num.lit 7 1) 10
               (Num.lit 60000 1) P0 in
    i = Num.lit 3 100 /\ a = Num.lit 7 100
    /\ Stmt.within (Lifespan.ratioBase i a)
         (Num.lit 9626 10000) (Num.lit 1 10000)
    /\ Stmt.within (Lifespan.lifespanInflationFactor p)
         (Num.lit (-3168) 10000) (Num.lit 1 10000)
    /\ Stmt.within (Lifespan.lifespanInflationPercent p)
         (Num.lit (-32) 1) (Num.lit 1 2)
    /\ Lifespan.finalAnnualExpenseUsd p
       = Num.lit 60000 1 * Num.lit 103 100 ^ 10
    /\ Stmt.within (Lifespan.finalAnnualExpenseUsd p)
         (Num.lit 8063498 100) (Num.lit 1 100).
Proof.
  intros P0 i a p. subst p.
  rewrite project_finalExpense.
  unfold Lifespan.project.
  cbn [Lifespan.lifespanInflationFactor Lifespan.lifespanInflationPercent].
  subst i a. unfold Stmt.within.
  repeat split; try (apply Qc_is_canon; vm_compute; reflexivity);
    vm_compute; discriminate.
Qed.

(** ** The price override *)

Section PriceOverrideFacts.

Import Cumulative.

Lemma isFinite_false (x : JsNumber) : isFinite x = false <-> Stmt.nonFinite x.
Proof.
  unfold Stmt.nonFinite. destruct x; cbn; split; intro H;
    try discriminate; try reflexivity; auto.
  destruct H as [H|[H|H]]; discriminate H.
Qed.

Lemma leZero_true (x : JsNumber) : leZero x = true <-> Stmt.nonPositive x.
Proof.
  unfold Stmt.nonPositive. destruct x as [q| | |]; cbn [leZero].
  - rewrite leb_le. split.
    + intro H. right. exists q. now split.
    + intros [H|(q' & E & H)]; [discriminate H|]. now injection E as ->.
  - split; [discriminate|]. intros [H|(q' & E & _)]; discriminate.
  - split; [now left | reflexivity].
  - split; [discriminate|]. intros [H|(q' & E & _)]; discriminate.
Qed.

Lemma guard_false (x : JsNumber) :
  negb (isFinite x) || leZero x = false <-> Stmt.finitePositive x.
Proof.
  unfold Stmt.finitePositive. destruct x as [q| | |]; cbn [isFinite leZero negb orb].
  - rewrite leb_gt. split.
    + intro H. exists q. now split.
    + intros (q' & E & H). now injection E as ->.
  - split; [discriminate|]. intros (q' & E & _). discriminate E.
  - split; [discriminate|]. intros (q' & E & _). discriminate E.
  - split; [discriminate|]. intros (q' & E & _). discriminate E.
Qed.

End PriceOverrideFacts.

(** C9.  Whatever the override text parses to, [effectiveBtcPrice] returns a
    number (it is a total function, nothing is raised): the retained
    [fetchedBtcPrice] (the latest fetched price, or the fallback constant)
    when the parsed value is non-finite or non-positive, and the parsed
    value itself otherwise, that is when it is finite and positive. *)
Theorem effective_price_fallback :
  forall (Number : string -> Cumulative.JsNumber) (btcPriceInput : string)
         (fetchedBtcPrice : Cumulative.JsNumber),
    let parsed := Number btcPriceInput in
    let effective :=
      Cumulative.effectiveBtcPrice Number btcPriceInput fetchedBtcPrice in
    (Stmt.nonFinite parsed \/ Stmt.nonPositive parsed ->
       effective = fetchedBtcPrice)
    /\ (~ (Stmt.nonFinite parsed \/ Stmt.nonPositive parsed) ->
          effective = parsed /\ Stmt.finitePositive parsed)
    /\ (Stmt.finitePositive fetchedBtcPrice -> Stmt.finitePositive effective).
Proof.
  intros Number input fetched parsed effective.
  subst effective. unfold Cumulative.effectiveBtcPrice. fold parsed.
  destruct (negb (Cumulative.isFinite parsed) || Cumulative.leZero parsed)
    eqn:G.
  - split; [reflexivity|]. split; [|tauto].
    intro H. exfalso. apply H.
    apply orb_true_iff in G as [G|G].
    + left. apply isFinite_false. now apply negb_true_iff.
    + right. now apply leZero_true.
  - apply guard_false in G. split; [|split].
    + intros [H|H]; exfalso; destruct G as (q & E & Hq).
      * rewrite E in H. destruct H as [H|[H|H]]; discriminate H.
      * rewrite E in H. destruct H as [H|(q' & E' & H)]; [discriminate H|].
        injection E' as <-. exact (Qclt_not_le _ _ Hq H).
    + intros _. now split.
    + intros _. exact G.
Qed.

Lemma effective_price_fallback_witness :
  let Number := fun s : string =>
    if String.eqb s "70000" then Cumulative.Finite (Num.lit 70000 1)
    else if String.eqb s "-5" then Cumulative.Finite (Num.lit (-5) 1)
    else Cumulative.NaN in
  let fetched := Cumulative.Finite Cumulative.FALLBACK_BTC_PRICE in
  Cumulative.effectiveBtcPrice Number "abc" fetched = fetched
  /\ Cumulative.effectiveBtcPrice Number "-5" fetched = fetched
  /\ Cumulative.effectiveBtcPrice Number "70000" fetched
     = Cumulative.Finite (Num.lit 70000 1).
Proof.
  cbv zeta.
  set (Number := fun s : string =>
    if String.eqb s "70000" then Cumulative.Finite (Num.lit 70000 1)
    else if String.eqb s "-5" then Cumulative.Finite (Num.lit (-5) 1)
    else Cumulative.NaN).
  set (fetched := Cumulative.Finite Cumulative.FALLBACK_BTC_PRICE).
  split; [|split].
  - apply (proj1 (effective_price_fallback Number "abc" fetched)).
    left. right. right. reflexivity.
  - apply (proj1 (effective_price_fallback Number "-5" fetched)).
    right. right. exists (Num.lit (-5) 1). split; [reflexivity|].
    vm_compute. discriminate.
  - apply (proj1 (proj2 (effective_price_fallback Number "70000" fetched))).
    intros [[H|[H|H]]|[H|(q & E & H)]]; try discriminate.
    injection E as <-. vm_compute in H. apply H. reflexivity.
Defined.

(** ** The input handlers *)

Section ClampFacts.

Import Cumulative.

Lemma finite_max (p q : Qc) :
  JsMath.max (Finite p) (Finite q) = Finite (if Num.leb p q then q else p).
Proof. reflexivity. Qed.

Lemma finite_min (p q : Qc) :
  JsMath.min (Finite p) (Finite q) = Finite (if Num.leb p q then p else q).
Proof. reflexivity. Qed.

Lemma clamp_finite (v lo hi : Qc) :
  lo <= hi ->
  exists q, JsMath.clamp (Finite v) (Finite lo) (Finite hi) = Finite q
            /\ lo <= q /\ q <= hi
            /\ (lo <= v -> v <= hi -> q = v).
Proof.
  intro Hlh. unfold JsMath.clamp. rewrite finite_max.
  destruct (Num.leb v lo) eqn:E1; rewrite finite_min.
  - apply leb_le in E1.
    destruct (Num.leb lo hi) eqn:E2.
    + exists lo. repeat split; [apply Qcle_refl | exact Hlh |].
      intros H _. now apply Qcle_antisym.
    + apply leb_gt in E2. exfalso. exact (Qclt_not_le _ _ E2 Hlh).
  - apply leb_gt in E1.
    destruct (Num.leb v hi) eqn:E2.
    + apply leb_le in E2. exists v.
      repeat split; [now apply Qclt_le_weak | exact E2].
    + apply leb_gt in E2. exists hi.
      repeat split; [exact Hlh | apply Qcle_refl |].
      intros _ H. exfalso. exact (Qclt_not_le _ _ E2 H).
Qed.

Lemma clamp_neg_infinity (lo hi : Qc) :
  lo <= hi -> JsMath.clamp NegInfinity (Finite lo) (Finite hi) = Finite lo.
Proof.
  intro H. unfold JsMath.clamp. cbn [JsMath.max]. rewrite finite_min.
  apply leb_le in H. now rewrite H.
Qed.

Lemma clamp_pos_infinity (lo hi : Qc) :
  JsMath.clamp PosInfinity (Finite lo) (Finite hi) = Finite hi.
Proof. reflexivity. Qed.

End ClampFacts.

(** X1.  [clamp] between finite bounds [lo <= hi]: [NaN] passes through;
    every other value, the infinities included, ends in [[lo, hi]]; a value
    already in range is returned unchanged; clamping twice is clamping
    once. *)
Theorem clamp_within_bounds :
  forall (value : Cumulative.JsNumber) (lo hi : Qc),
    lo <= hi ->
    let clamped :=
      JsMath.clamp value (Cumulative.Finite lo) (Cumulative.Finite hi) in
    (value = Cumulative.NaN -> clamped = Cumulative.NaN)
    /\ (value <> Cumulative.NaN ->
          exists q, clamped = Cumulative.Finite q /\ lo <= q /\ q <= hi)
    /\ (forall v, value = Cumulative.Finite v -> lo <= v -> v <= hi ->
          clamped = value)
    /\ JsMath.clamp clamped (Cumulative.Finite lo) (Cumulative.Finite hi)
       = clamped.
Proof.
  intros value lo hi Hlh clamped.
  assert (Hin : value <> Cumulative.NaN ->
                exists q, clamped = Cumulative.Finite q /\ lo <= q /\ q <= hi).
  { intro Hn. subst clamped. destruct value as [v| | |].
    - destruct (clamp_finite v lo hi Hlh) as (q & E & H1 & H2 & _).
      exists q. now repeat split.
    - exists hi. repeat split; [exact Hlh | apply Qcle_refl].
    - exists lo. rewrite clamp_neg_infinity by exact Hlh.
      repeat split; [apply Qcle_refl | exact Hlh].
    - now contradict Hn. }
  split; [intros ->; reflexivity|]. split; [exact Hin|]. split.
  - intros v -> H1 H2. subst clamped.
    destruct (clamp_finite v lo hi Hlh) as (q & E & _ & _ & Hid).
    rewrite E. f_equal. now apply Hid.
  - destruct value as [v| | |]; try (destruct (Hin ltac:(discriminate))
      as (q & E & H1 & H2); rewrite E;
      destruct (clamp_finite q lo hi Hlh) as (q' & E' & _ & _ & Hid);
      rewrite E'; f_equal; now apply Hid).
    reflexivity.
Qed.

Lemma clamp_within_bounds_witness :
  let clamped :=
    JsMath.clamp (Cumulative.Finite (Num.lit 25000000 1)) (Cumulative.Finite 0)
      (Cumulative.Finite (Num.lit 10000000 1)) in
  (Cumulative.Finite (Num.lit 25000000 1) = Cumulative.NaN ->
     clamped = Cumulative.NaN)
  /\ (Cumulative.Finite (Num.lit 25000000 1) <> Cumulative.NaN ->
        exists q, clamped = Cumulative.Finite q
                  /\ 0 <= q /\ q <= Num.lit 10000000 1)
  /\ (forall v, Cumulative.Finite (Num.lit 25000000 1) = Cumulative.Finite v ->
        0 <= v -> v <= Num.lit 10000000 1 ->
        clamped = Cumulative.Finite (Num.lit 25000000 1))
  /\ JsMath.clamp clamped (Cumulative.Finite 0)
       (Cumulative.Finite (Num.lit 10000000 1))
     = clamped.
Proof.
  apply (clamp_within_bounds (Cumulative.Finite (Num.lit 25000000 1)) 0
           (Num.lit 10000000 1)).
  vm_compute. discriminate.
Defined.

(** X2.  Whatever the expense field's text parses to, the stored value is a
    finite number in [[0, 10000000]]: [NaN] and [-Infinity] give [0],
    [+Infinity] gives the upper bound, and a value in range is kept. *)
Theorem annual_expense_input_bounded :
  forall parsed : Cumulative.JsNumber,
    (exists q, JsMath.annualExpenseInput parsed = Cumulative.Finite q
               /\ 0 <= q /\ q <= Num.lit 10000000 1)
    /\ JsMath.annualExpenseInput Cumulative.NaN = Cumulative.Finite 0
    /\ JsMath.annualExpenseInput Cumulative.NegInfinity = Cumulative.Finite 0
    /\ JsMath.annualExpenseInput Cumulative.PosInfinity
       = Cumulative.Finite (Num.lit 10000000 1)
    /\ (forall v, parsed = Cumulative.Finite v ->
          0 <= v -> v <= Num.lit 10000000 1 ->
          JsMath.annualExpenseInput parsed = parsed).
Proof.
  intro parsed.
  assert (Hb : 0 <= Num.lit 10000000 1) by (vm_compute; discriminate).
  split; [|split; [reflexivity|split; [reflexivity|split; [reflexivity|]]]].
  - unfold JsMath.annualExpenseInput, JsMath.orZero.
    destruct parsed as [v| | |]; cbn [JsMath.truthy].
    + destruct (negb (Qc_eq_bool v 0));
        [destruct (clamp_finite v 0 _ Hb) as (q & E & H1 & H2 & _)
        |destruct (clamp_finite 0 0 _ Hb) as (q & E & H1 & H2 & _)];
        exists q; now repeat split.
    + exists (Num.lit 10000000 1). repeat split; [exact Hb | apply Qcle_refl].
    + exists 0. repeat split; [apply Qcle_refl | exact Hb].
    + exists 0. repeat split; [apply Qcle_refl | exact Hb].
  - intros v -> H1 H2. unfold JsMath.annualExpenseInput, JsMath.orZero.
    cbn [JsMath.truthy]. destruct (Qc_eq_bool v 0) eqn:E; cbn [negb].
    + apply Qc_eq_bool_correct in E. subst v. reflexivity.
    + destruct (clamp_finite v 0 _ Hb) as (q & Eq & _ & _ & Hid).
      rewrite Eq. f_equal. now apply Hid.
Qed.

(** X3.  [clampCurrencyInput] keeps a starting cost in [[1, 1000000]] for
    every parsed text except one that is not a number: [NaN] is stored as
    [NaN]. *)
Theorem clamp_currency_input_range :
  forall value : Cumulative.JsNumber,
    (value = Cumulative.NaN ->
       JsMath.clampCurrencyInput value = Cumulative.NaN)
    /\ (value <> Cumulative.NaN ->
          exists q, JsMath.clampCurrencyInput value = Cumulative.Finite q
                    /\ 1 <= q /\ q <= Num.lit 1000000 1)
    /\ (forall v, value = Cumulative.Finite v ->
          1 <= v -> v <= Num.lit 1000000 1 ->
          JsMath.clampCurrencyInput value = value).
Proof.
  intro value.
  assert (Hb : 1 <= Num.lit 1000000 1) by (vm_compute; discriminate).
  change (JsMath.clampCurrencyInput value)
    with (JsMath.clamp value (Cumulative.Finite 1)
            (Cumulative.Finite (Num.lit 1000000 1))).
  split; [intros ->; reflexivity|]. split.
  - intro Hn. destruct value as [v| | |].
    + destruct (clamp_finite v 1 _ Hb) as (q & E & H1 & H2 & _).
      exists q. now repeat split.
    + exists (Num.lit 1000000 1). repeat split; [exact Hb | apply Qcle_refl].
    + exists 1. repeat split; [apply Qcle_refl | exact Hb].
    + now contradict Hn.
  - intros v -> H1 H2.
    destruct (clamp_finite v 1 _ Hb) as (q & E & _ & _ & Hid).
    rewrite E. f_equal. now apply Hid.
Qed.

(** ** The cost trajectory *)

Section TrajectoryFacts.

Lemma Qc_pos_nonzero (x : Qc) : 0 < x -> x <> 0.
Proof. intros H E. rewrite E in H. discriminate H. Qed.

Lemma Qcpower_nonzero (x : Qc) (k : nat) : x <> 0 -> x ^ k <> 0.
Proof.
  intro Hx. induction k as [|k IH]; cbn [Qcpower].
  - discriminate.
  - intro E. apply Qcmult_integral in E as [E|E]; contradiction.
Qed.

Lemma Qcpower_div (x y : Qc) (k : nat) :
  y <> 0 -> (x / y) ^ k = x ^ k / y ^ k.
Proof.
  intro Hy. induction k as [|k IH]; cbn [Qcpower].
  - unfold Qcdiv. symmetry. apply Qcmult_inv_r. discriminate.
  - rewrite IH. pose proof (Qcpower_nonzero y k Hy) as Hk.
    field. split; assumption.
Qed.

Lemma succ_rate_nonzero (x : Qc) : x <> - (1) -> 1 + x <> 0.
Proof.
  intros H E. apply H. replace x with (1 + x + - (1)) by ring.
  rewrite E. ring.
Qed.

Lemma Qcmult_lt_compat_l (x y z : Qc) : 0 < z -> x < y -> z * x < z * y.
Proof.
  intros Hz Hxy. rewrite (Qcmult_comm z x), (Qcmult_comm z y).
  now apply Qcmult_lt_compat_r.
Qed.

Variables (assetInflation fiatDeflation : Qc) (years : nat) (startingCost : Qc).

Abbreviation ai := (assetInflation / Num.lit 100 1).
Abbreviation fd := (fiatDeflation / Num.lit 100 1).
Abbreviation res :=
  (Trajectory.project assetInflation fiatDeflation years startingCost).

Lemma trajectory_nth (t : nat) :
  (t <= years)%nat ->
  nth_error (Trajectory.data res) t
  = Some (Trajectory.pointAt ai fd startingCost t).
Proof.
  intro Ht. cbn [Trajectory.project Trajectory.data].
  rewrite nth_error_map, nth_error_seq.
  destruct (Nat.ltb_spec t (years + 1)) as [_|H]; [reflexivity | lia].
Qed.

Lemma trajectory_nth_beyond (t : nat) :
  (years < t)%nat -> nth_error (Trajectory.data res) t = None.
Proof.
  intro Ht. apply nth_error_None. cbn [Trajectory.project Trajectory.data].
  rewrite length_map, length_seq. lia.
Qed.

Lemma trajectory_last :
  Num.lastOpt (Trajectory.data res)
  = Some (Trajectory.pointAt ai fd startingCost years).
Proof.
  unfold Num.lastOpt.
  replace (List.length (Trajectory.data res) - 1)%nat with years.
  - apply trajectory_nth. lia.
  - cbn [Trajectory.project Trajectory.data].
    rewrite length_map, length_seq. lia.
Qed.

Lemma trajectory_real (t : nat) :
  fd <> - (1) ->
  Trajectory.real (Trajectory.pointAt ai fd startingCost t)
  = startingCost * Lifespan.ratioBase ai fd ^ t.
Proof.
  intro Hfd.
  pose proof (succ_rate_nonzero _ Hfd) as H1.
  cbn [Trajectory.pointAt Trajectory.real]. unfold Lifespan.ratioBase.
  rewrite Qcpower_div by exact H1.
  pose proof (Qcpower_nonzero _ t H1) as Hk. field. exact Hk.
Qed.

Lemma trajectory_realAt_inv (t : nat) (r : Qc) :
  fd <> - (1) ->
  View.realAt res t = Some r ->
  (t <= years)%nat /\ r = startingCost * Lifespan.ratioBase ai fd ^ t.
Proof.
  intros Hfd H. unfold View.realAt in H.
  destruct (le_lt_dec t years) as [Hle|Hgt].
  - rewrite trajectory_nth in H by exact Hle. cbn [option_map] in H.
    rewrite trajectory_real in H by exact Hfd. split; congruence.
  - rewrite trajectory_nth_beyond in H by exact Hgt. discriminate H.
Qed.

End TrajectoryFacts.

(** X4.  The cost trajectory has [years + 1] points, for the years
    [0, 1, ..., years]; the point of year [t] shows the nominal cost
    [C0 * (1+ai)^t] and, as real cost, that nominal cost divided by
    [(1+fd)^t]; at year 0 both are the starting cost; the final values are
    those of the last point, that of year [years], so the object after [??]
    is never used; and the net rate is [(1+ai)/(1+fd) - 1]. *)
Theorem trajectory_series_shape :
  forall (assetInflation fiatDeflation : Qc) (years : nat) (startingCost : Qc),
    let ai := assetInflation / Num.lit 100 1 in
    let fd := fiatDeflation / Num.lit 100 1 in
    let res :=
      Trajectory.project assetInflation fiatDeflation years startingCost in
    List.length (Trajectory.data res) = (years + 1)%nat
    /\ map Trajectory.year (Trajectory.data res) = seq 0 (years + 1)
    /\ hd_error (Trajectory.data res)
       = Some (Trajectory.mkCostPoint 0 startingCost startingCost)
    /\ (forall t pt, nth_error (Trajectory.data res) t = Some pt ->
          Trajectory.year pt = t
          /\ Trajectory.nominal pt = startingCost * (1 + ai) ^ t
          /\ Trajectory.real pt = Trajectory.nominal pt / (1 + fd) ^ t)
    /\ (exists pt, Num.lastOpt (Trajectory.data res) = Some pt
                   /\ Trajectory.year pt = years
                   /\ Trajectory.finalNominal res = Trajectory.nominal pt
                   /\ Trajectory.finalReal res = Trajectory.real pt)
    /\ Trajectory.netRate res = (1 + ai) / (1 + fd) - 1.
Proof.
  intros assetInflation fiatDeflation years startingCost ai fd res.
  subst res ai fd.
  pose proof (trajectory_last assetInflation fiatDeflation years startingCost)
    as L.
  split; [|split; [|split; [|split; [|split]]]].
  - cbn [Trajectory.project Trajectory.data].
    rewrite length_map, length_seq. reflexivity.
  - cbn [Trajectory.project Trajectory.data]. rewrite map_map.
    cbn [Trajectory.pointAt Trajectory.year]. apply map_id.
  - pose proof (trajectory_nth assetInflation fiatDeflation years
                  startingCost 0 ltac:(lia)) as H0.
    destruct (Trajectory.data _) as [|p0 ps]; [discriminate H0|].
    cbn [nth_error hd_error] in *. rewrite H0. f_equal.
    unfold Trajectory.pointAt. cbn [Qcpower]. f_equal.
    + ring.
    + field. discriminate.
  - intros t pt Hpt. destruct (le_lt_dec t years) as [Hle|Hgt].
    + rewrite trajectory_nth in Hpt by exact Hle. injection Hpt as <-.
      repeat split.
    + rewrite trajectory_nth_beyond in Hpt by exact Hgt. discriminate Hpt.
  - eexists. split; [exact L|].
    unfold Trajectory.project in *.
    cbn [Trajectory.finalNominal Trajectory.finalReal Trajectory.data] in *.
    rewrite L. repeat split.
  - reflexivity.
Qed.

(** X5.  For the rates the two sliders can hold ([0..30] percent in steps
    of [0.1]), at most [80] years and a starting cost in [[1, 1000000]], the
    sign of the reported net rate tells the trend of the real cost: it is
    positive and the real cost strictly increases with the year when
    [ai > fd]; negative and strictly decreasing when [ai < fd]; and zero
    when [ai = fd]. *)
Theorem trajectory_trend_on_sliders :
  forall (assetInflation fiatDeflation : Qc) (years : nat) (startingCost : Qc),
    let ai := assetInflation / Num.lit 100 1 in
    let fd := fiatDeflation / Num.lit 100 1 in
    let res :=
      Trajectory.project assetInflation fiatDeflation years startingCost in
    View.sliderValue 0 300 assetInflation ->
    View.sliderValue 0 300 fiatDeflation ->
    (years <= 80)%nat ->
    1 <= startingCost -> startingCost <= Num.lit 1000000 1 ->
    (fd < ai ->
       0 < Trajectory.netRate res
       /\ forall s t rs rt, (s < t)%nat ->
            View.realAt res s = Some rs -> View.realAt res t = Some rt ->
            rs < rt)
    /\ (ai < fd ->
          Trajectory.netRate res < 0
          /\ forall s t rs rt, (s < t)%nat ->
               View.realAt res s = Some rs -> View.realAt res t = Some rt ->
               rt < rs)
    /\ (ai = fd -> Trajectory.netRate res = 0).
Proof.
  intros assetInflation fiatDeflation years startingCost ai fd res
         Hsa Hsf _ HC1 _.
  assert (Hai : - (1) < ai) by (apply (slider_rate_gt 0 300); [lia | exact Hsa]).
  assert (Hfd : - (1) < fd) by (apply (slider_rate_gt 0 300); [lia | exact Hsf]).
  assert (HC : 0 < startingCost)
    by (apply Qclt_le_trans with 1; [reflexivity | exact HC1]).
  assert (Hne : fd <> - (1)).
  { intro E. rewrite E in Hfd. discriminate Hfd. }
  assert (Hnet : Trajectory.netRate res = Lifespan.ratioBase ai fd - 1)
    by reflexivity.
  rewrite Hnet. split; [|split].
  - intro Hlt. pose proof (ratioBase_gt_1 ai fd Hfd Hlt) as Hr. split.
    + apply Qclt_minus_iff in Hr. exact Hr.
    + intros s t rs rt Hst Hs Ht.
      apply trajectory_realAt_inv in Hs as [_ ->]; [|exact Hne].
      apply trajectory_realAt_inv in Ht as [_ ->]; [|exact Hne].
      apply Qcmult_lt_compat_l; [exact HC|]. now apply Qcpower_increasing.
  - intro Hlt. pose proof (ratioBase_lt_1 ai fd Hfd Hlt) as Hr. split.
    + apply Qclt_minus_iff. apply Qclt_minus_iff in Hr.
      replace (0 + - (Lifespan.ratioBase ai fd - 1))
        with (1 + - Lifespan.ratioBase ai fd) by ring. exact Hr.
    + intros s t rs rt Hst Hs Ht.
      apply trajectory_realAt_inv in Hs as [_ ->]; [|exact Hne].
      apply trajectory_realAt_inv in Ht as [_ ->]; [|exact Hne].
      apply Qcmult_lt_compat_l; [exact HC|].
      apply Qcpower_decreasing; [now apply ratioBase_pos | exact Hr | exact Hst].
  - intro Heq. fold ai fd in Heq.
    rewrite Heq, ratioBase_eq_1 by exact Hfd. ring.
Qed.

Lemma trajectory_trend_on_sliders_witness :
  let res :=
    Trajectory.project (Num.lit 70 10) (Num.lit 30 10) 30 (Num.lit 100 1) in
  0 < Trajectory.netRate res
  /\ forall s t rs rt, (s < t)%nat ->
       View.realAt res s = Some rs -> View.realAt res t = Some rt -> rs < rt.
Proof.
  apply (trajectory_trend_on_sliders (Num.lit 70 10) (Num.lit 30 10) 30
           (Num.lit 100 1)).
  - exists 70%Z. split; [lia | reflexivity].
  - exists 30%Z. split; [lia | reflexivity].
  - lia.
  - vm_compute. discriminate.
  - vm_compute. discriminate.
  - vm_compute. reflexivity.
Defined.

(** ** The two portfolio variants side by side *)

Section LoopPrinciples.

Lemma forUpTo_rel {S1 S2 : Type} (R : S1 -> S2 -> Prop)
    (body1 : nat -> S1 -> S1) (body2 : nat -> S2 -> S2)
    (init1 : S1) (init2 : S2) (n : nat) :
  R init1 init2 ->
  (forall k s1 s2, R s1 s2 -> R (body1 k s1) (body2 k s2)) ->
  R (Num.forUpTo n body1 init1) (Num.forUpTo n body2 init2).
Proof.
  intros H0 Hstep. induction n as [|n IH].
  - rewrite !forUpTo_0. now apply Hstep.
  - rewrite !forUpTo_S. now apply Hstep.
Qed.

Lemma forUpTo_inv {S : Type} (P : S -> Prop) (body : nat -> S -> S)
    (init : S) (n : nat) :
  P init -> (forall k s, P s -> P (body k s)) -> P (Num.forUpTo n body init).
Proof.
  intros H0 Hstep. induction n as [|n IH].
  - rewrite forUpTo_0. now apply Hstep.
  - rewrite forUpTo_S. now apply Hstep.
Qed.

Lemma lastOpt_map {A B : Type} (f : A -> B) (xs : list A) :
  Num.lastOpt (map f xs) = option_map f (Num.lastOpt xs).
Proof.
  unfold Num.lastOpt. rewrite length_map. apply nth_error_map.
Qed.

Lemma lastOpt_In {A : Type} (xs : list A) (x : A) :
  Num.lastOpt xs = Some x -> In x xs.
Proof. unfold Num.lastOpt. apply nth_error_In. Qed.

End LoopPrinciples.

Section VariantsAgree.

Variables i a E0 : Qc.

Lemma agree_step (k : nat) s1 s2 :
  View.agree s1 s2 ->
  View.agree (Lifespan.loopBody i a E0 k s1) (AssetAdjusted.loopBody i a E0 k s2).
Proof.
  intros (Hp & Hd & Hu & Hs). unfold View.agree.
  cbn [Lifespan.loopBody AssetAdjusted.loopBody Lifespan.portfolioUsd
       AssetAdjusted.portfolioNow Lifespan.depletion AssetAdjusted.depletion
       Lifespan.runningUsdExpensesTotal AssetAdjusted.runningNominalTotal
       Lifespan.points AssetAdjusted.points].
  rewrite !map_app, Hp, Hd, Hu, Hs. repeat split.
Qed.

Lemma agree_run (P0 : Qc) (n : nat) :
  View.agree (Lifespan.runLoop i a E0 P0 n) (AssetAdjusted.runLoop i a E0 P0 n).
Proof.
  unfold Lifespan.runLoop, AssetAdjusted.runLoop.
  apply forUpTo_rel; [repeat split | intros k s1 s2; apply agree_step].
Qed.

(** Every point of the asset-adjusted loop shows [E0 * ratio]. *)
Lemma asset_adjusted_points (P0 : Qc) (n : nat) :
  Forall (fun pt => AssetAdjusted.assetAdjustedExpense pt
                    = E0 * AssetAdjusted.ratio pt)
    (AssetAdjusted.points (AssetAdjusted.runLoop i a E0 P0 n)).
Proof.
  unfold AssetAdjusted.runLoop.
  apply (forUpTo_inv (fun st =>
    Forall (fun pt => AssetAdjusted.assetAdjustedExpense pt
                      = E0 * AssetAdjusted.ratio pt) (AssetAdjusted.points st))).
  - constructor.
  - intros k s H. cbn [AssetAdjusted.loopBody AssetAdjusted.points].
    apply Forall_app. split; [exact H|]. repeat constructor.
Qed.

End VariantsAgree.

(** X6.  The two portfolio variants of [App.tsx] agree on what both compute:
    for the same inputs they show, period by period, the same year, ratio,
    nominal expense and portfolio balance, and return the same Lifespan
    Inflation Factor and percent, final ratio, final, total and average
    nominal expense, and depletion year. *)
Theorem portfolio_variants_agree_on_common_fields :
  forall (inflationPercent assetGrowthPercent : Qc) (T : nat) (E0 P0 : Qc),
    let p := Lifespan.project inflationPercent assetGrowthPercent T E0 P0 in
    let q := AssetAdjusted.project inflationPercent assetGrowthPercent T E0 P0 in
    map View.commonOfLifespan (Lifespan.series p)
    = map View.commonOfAssetAdjusted (AssetAdjusted.series q)
    /\ Lifespan.lifespanInflationFactor p
       = AssetAdjusted.lifespanInflationFactor q
    /\ Lifespan.lifespanInflationPercent p
       = AssetAdjusted.lifespanInflationPercent q
    /\ Lifespan.finalRatio p = AssetAdjusted.finalRatio q
    /\ Lifespan.finalAnnualExpenseUsd p = AssetAdjusted.finalNominalExpense q
    /\ Lifespan.totalExpensesUsd p = AssetAdjusted.totalNominal q
    /\ Lifespan.avgAnnualExpenseUsd p = AssetAdjusted.avgNominal q
    /\ Lifespan.depletionYear p = AssetAdjusted.depletionYear q.
Proof.
  intros ip ap T E0 P0 p q. subst p q.
  set (i := Lifespan.rate ip). set (a := Lifespan.rate ap).
  destruct (agree_run i a E0 P0 T) as (Hp & Hd & Hu & Hs).
  unfold Lifespan.project, AssetAdjusted.project. fold i a.
  cbn [Lifespan.series AssetAdjusted.series
       Lifespan.lifespanInflationFactor AssetAdjusted.lifespanInflationFactor
       Lifespan.lifespanInflationPercent AssetAdjusted.lifespanInflationPercent
       Lifespan.finalRatio AssetAdjusted.finalRatio
       Lifespan.finalAnnualExpenseUsd AssetAdjusted.finalNominalExpense
       Lifespan.totalExpensesUsd AssetAdjusted.totalNominal
       Lifespan.avgAnnualExpenseUsd AssetAdjusted.avgNominal
       Lifespan.depletionYear AssetAdjusted.depletionYear].
  set (s1 := Lifespan.runLoop i a E0 P0 T) in *.
  set (s2 := AssetAdjusted.runLoop i a E0 P0 T) in *.
  assert (Hlast : option_map View.commonOfLifespan
                    (Num.lastOpt (Lifespan.points s1))
                  = option_map View.commonOfAssetAdjusted
                      (Num.lastOpt (AssetAdjusted.points s2)))
    by (rewrite <- !lastOpt_map; now rewrite Hs).
  split; [exact Hs|]. split; [reflexivity|]. split; [reflexivity|].
  split.
  { destruct (Num.lastOpt (Lifespan.points s1)) as [x|],
             (Num.lastOpt (AssetAdjusted.points s2)) as [y|];
      try discriminate Hlast; [|reflexivity].
    cbn in Hlast. now injection Hlast. }
  split.
  { destruct (Num.lastOpt (Lifespan.points s1)) as [x|],
             (Num.lastOpt (AssetAdjusted.points s2)) as [y|];
      try discriminate Hlast; [|reflexivity].
    cbn in Hlast. now injection Hlast. }
  split; [exact Hu|]. split; [now rewrite Hu | exact Hd].
Qed.

(** X7.  In the asset-adjusted variant every point's asset-adjusted expense
    is [E0 * ratio]; the series is never empty, so the object after [??] is
    never used and the final values are those of the point of period [T]:
    the Lifespan Inflation Factor is the final ratio minus one, the final
    asset-adjusted expense is [E0] times the final ratio, and the final
    nominal expense is [E0 * (1+i)^T]. *)
Theorem asset_adjusted_final_values :
  forall (inflationPercent assetGrowthPercent : Qc) (T : nat) (E0 P0 : Qc),
    let i := Lifespan.rate inflationPercent in
    let q := AssetAdjusted.project inflationPercent assetGrowthPercent T E0 P0 in
    Forall (fun pt => AssetAdjusted.assetAdjustedExpense pt
                      = E0 * AssetAdjusted.ratio pt)
      (AssetAdjusted.series q)
    /\ (exists pt, Num.lastOpt (AssetAdjusted.series q) = Some pt
                   /\ AssetAdjusted.year pt = T
                   /\ AssetAdjusted.finalRatio q = AssetAdjusted.ratio pt
                   /\ AssetAdjusted.finalNominalExpense q
                      = AssetAdjusted.nominalExpense pt
                   /\ AssetAdjusted.finalAssetAdjustedExpense q
                      = AssetAdjusted.assetAdjustedExpense pt)
    /\ AssetAdjusted.lifespanInflationFactor q = AssetAdjusted.finalRatio q - 1
    /\ AssetAdjusted.finalAssetAdjustedExpense q
       = E0 * AssetAdjusted.finalRatio q
    /\ AssetAdjusted.finalNominalExpense q = E0 * (1 + i) ^ T.
Proof.
  intros ip ap T E0 P0 i q. subst q.
  set (a := Lifespan.rate ap).
  pose proof (asset_adjusted_points i a E0 P0 T) as Hall.
  destruct (agree_run i a E0 P0 T) as (_ & _ & _ & Hs).
  pose proof (points_last i a E0 P0 T) as L1.
  assert (Hlast : option_map View.commonOfLifespan
                    (Num.lastOpt (Lifespan.points (Lifespan.runLoop i a E0 P0 T)))
                  = option_map View.commonOfAssetAdjusted
                      (Num.lastOpt (AssetAdjusted.points
                                      (AssetAdjusted.runLoop i a E0 P0 T))))
    by (rewrite <- !lastOpt_map; now rewrite Hs).
  rewrite L1 in Hlast.
  unfold AssetAdjusted.project. fold i a.
  cbn [AssetAdjusted.series AssetAdjusted.finalRatio
       AssetAdjusted.lifespanInflationFactor
       AssetAdjusted.finalNominalExpense
       AssetAdjusted.finalAssetAdjustedExpense].
  destruct (Num.lastOpt (AssetAdjusted.points
                           (AssetAdjusted.runLoop i a E0 P0 T)))
    as [y|] eqn:Ey; [|discriminate Hlast].
  cbn in Hlast. injection Hlast as Hy Hr Hn _.
  split; [exact Hall|]. split; [exists y; now repeat split|].
  split; [now rewrite <- Hr|]. split; [|now rewrite <- Hn].
  apply lastOpt_In in Ey. rewrite Forall_forall in Hall. now apply Hall.
Qed.

(** X8.  In the first portfolio variant the series is never empty, so the
    object after [??] is never used and the summary fields are the values of
    the point of period [T]: the Lifespan Inflation Factor is the final ratio
    minus one, the final nominal expense is [E0 * (1+i)^T], the final
    portfolio is the balance at [T], and the two final values in asset units
    are the USD ones divided by [(1+a)^T]. *)
Theorem lifespan_summary_is_last_point :
  forall (inflationPercent assetGrowthPercent : Qc) (T : nat) (E0 P0 : Qc),
    let i := Lifespan.rate inflationPercent in
    let a := Lifespan.rate assetGrowthPercent in
    let p := Lifespan.project inflationPercent assetGrowthPercent T E0 P0 in
    (exists pt, Num.lastOpt (Lifespan.series p) = Some pt
                /\ Lifespan.year pt = T
                /\ Lifespan.finalRatio p = Lifespan.ratio pt
                /\ Lifespan.finalAnnualExpenseUsd p = Lifespan.E_nom_usd pt
                /\ Lifespan.finalAnnualExpenseBtc p = Lifespan.E_btc pt
                /\ Lifespan.finalPortfolioUsd p = Lifespan.P_usd pt
                /\ Lifespan.finalPortfolioBtc p = Lifespan.P_btc pt)
    /\ Lifespan.lifespanInflationFactor p = Lifespan.finalRatio p - 1
    /\ Stmt.ratioAt p T = Some (Lifespan.finalRatio p)
    /\ Lifespan.finalAnnualExpenseUsd p = E0 * (1 + i) ^ T
    /\ Stmt.balanceAt p T = Some (Lifespan.finalPortfolioUsd p)
    /\ Lifespan.finalAnnualExpenseBtc p
       = Lifespan.finalAnnualExpenseUsd p / (1 + a) ^ T
    /\ Lifespan.finalPortfolioBtc p
       = Lifespan.finalPortfolioUsd p / (1 + a) ^ T.
Proof.
  intros ip ap T E0 P0 i a p. subst p.
  rewrite project_ratioAt, project_balanceAt by lia.
  unfold Lifespan.project. fold i a.
  cbn [Lifespan.finalRatio Lifespan.lifespanInflationFactor Lifespan.series
       Lifespan.finalAnnualExpenseUsd Lifespan.finalPortfolioUsd
       Lifespan.finalPortfolioBtc Lifespan.finalAnnualExpenseBtc].
  rewrite points_last. split.
  - eexists. split; [reflexivity|]. repeat split.
  - repeat split.
Qed.

(** ** The portfolio balance *)

Section BalanceFacts.

Import Lifespan.

Lemma succ_rate_nonneg (x : Qc) : - (1) <= x -> 0 <= 1 + x.
Proof.
  intro H. apply Qcle_minus_iff in H.
  replace (1 + x) with (x + - - (1)) by ring. exact H.
Qed.

Lemma Qcminus_le_compat_r (x y c : Qc) : x <= y -> x - c <= y - c.
Proof.
  intro H. unfold Qcminus. apply Qcplus_le_compat; [exact H | apply Qcle_refl].
Qed.

Variables i a E0 : Qc.

Abbreviation bal P0 k := (portfolioUsd (runLoop i a E0 P0 k)).

Lemma nominal_nonneg (k : nat) : - (1) <= i -> 0 <= E0 -> 0 <= E0 * (1 + i) ^ k.
Proof.
  intros Hi HE. rewrite <- (Qcmult_0_l ((1 + i) ^ k)).
  apply Qcmult_le_compat_r; [exact HE|].
  apply Qcpower_pos. now apply succ_rate_nonneg.
Qed.

Lemma balance_stays_down (P0 : Qc) (k m : nat) :
  - (1) <= a -> - (1) <= i -> 0 <= E0 ->
  (k <= m)%nat -> bal P0 k <= 0 -> bal P0 m <= 0.
Proof.
  intros Ha Hi HE Hkm Hk. induction Hkm as [|m Hkm IH].
  - exact Hk.
  - rewrite portfolio_S.
    apply Qcle_trans with (0 * (1 + a) - E0 * (1 + i) ^ S m).
    + apply Qcminus_le_compat_r.
      apply Qcmult_le_compat_r; [exact IH | now apply succ_rate_nonneg].
    + apply Qcle_minus_iff.
      replace (0 + - (0 * (1 + a) - E0 * (1 + i) ^ S m))
        with (E0 * (1 + i) ^ S m) by ring.
      now apply nominal_nonneg.
Qed.

Lemma balance_monotone (P0 P0' : Qc) (k : nat) :
  - (1) <= a -> P0 <= P0' -> bal P0 k <= bal P0' k.
Proof.
  intros Ha HP. induction k as [|k IH].
  - exact HP.
  - rewrite !portfolio_S. apply Qcminus_le_compat_r.
    apply Qcmult_le_compat_r; [exact IH | now apply succ_rate_nonneg].
Qed.

End BalanceFacts.

(** X10.  For [a >= -1], [i >= -1] and [E0 >= 0] a balance that has reached
    zero or below never recovers: from the depletion year on every balance
    of the series is [<= 0]; so, for [T >= 1], the portfolio is reported
    depleted exactly when the final balance is [<= 0]. *)
Theorem depleted_balance_stays_down :
  forall (inflationPercent assetGrowthPercent : Qc) (T : nat) (E0 P0 : Qc),
    let i := Lifespan.rate inflationPercent in
    let a := Lifespan.rate assetGrowthPercent in
    let p := Lifespan.project inflationPercent assetGrowthPercent T E0 P0 in
    - (1) <= a -> - (1) <= i -> 0 <= E0 ->
    (forall d k b, Lifespan.depletionYear p = Some d ->
       (d <= k)%nat -> Stmt.balanceAt p k = Some b -> b <= 0)
    /\ ((1 <= T)%nat ->
          (Lifespan.depletionYear p <> None
           <-> Lifespan.finalPortfolioUsd p <= 0)).
Proof.
  intros ip ap T E0 P0 i a p Ha Hi HE. subst p.
  assert (Hsplit : forall d k b,
            Lifespan.depletionYear (Lifespan.project ip ap T E0 P0) = Some d ->
            (d <= k)%nat ->
            Stmt.balanceAt (Lifespan.project ip ap T E0 P0) k = Some b ->
            b <= 0).
  { intros d k b Hd Hdk Hb.
    apply project_balanceAt_inv in Hb as [Hk ->].
    rewrite project_depletionYear in Hd.
    apply depletion_some in Hd as (_ & Hle & _).
    now apply (balance_stays_down i a E0 P0 d k). }
  split; [exact Hsplit|].
  intro HT.
  assert (Hfin : Lifespan.finalPortfolioUsd (Lifespan.project ip ap T E0 P0)
                 = Lifespan.portfolioUsd (Lifespan.runLoop i a E0 P0 T)).
  { unfold Lifespan.project. cbn [Lifespan.finalPortfolioUsd]. fold i a.
    now rewrite points_last. }
  rewrite Hfin. split.
  - intro Hne.
    destruct (Lifespan.depletionYear (Lifespan.project ip ap T E0 P0))
      as [d|] eqn:Hd; [|now contradict Hne].
    apply (Hsplit d T); [reflexivity | |apply project_balanceAt; lia].
    rewrite project_depletionYear in Hd.
    apply depletion_some in Hd. lia.
  - intros Hle Hnone. rewrite project_depletionYear in Hnone.
    pose proof (proj1 (depletion_none i a E0 P0 T) Hnone T ltac:(lia)) as Hpos.
    exact (Qclt_not_le _ _ Hpos Hle).
Qed.

Lemma depleted_balance_stays_down_witness :
  let p := Lifespan.project (Num.lit 3 1) (Num.lit 7 1) 10
             (Num.lit 60000 1) (Num.lit 100000 1) in
  (forall d k b, Lifespan.depletionYear p = Some d ->
     (d <= k)%nat -> Stmt.balanceAt p k = Some b -> b <= 0)
  /\ ((1 <= 10)%nat ->
        (Lifespan.depletionYear p <> None
         <-> Lifespan.finalPortfolioUsd p <= 0)).
Proof.
  apply (depleted_balance_stays_down (Num.lit 3 1) (Num.lit 7 1) 10
           (Num.lit 60000 1) (Num.lit 100000 1));
    vm_compute; discriminate.
Defined.

(** X11.  For [a >= -1] a larger starting portfolio gives a balance at least
    as large in every period, so it is depleted no earlier: if the larger
    one is depleted in year [d'], the smaller one is depleted in some year
    [d <= d']; and if the smaller one is never depleted, neither is the
    larger. *)
Theorem larger_portfolio_lasts_longer :
  forall (inflationPercent assetGrowthPercent : Qc) (T : nat)
         (E0 P0 P0' : Qc),
    let a := Lifespan.rate assetGrowthPercent in
    let p := Lifespan.project inflationPercent assetGrowthPercent T E0 P0 in
    let p' := Lifespan.project inflationPercent assetGrowthPercent T E0 P0' in
    - (1) <= a -> P0 <= P0' ->
    (forall k b b', Stmt.balanceAt p k = Some b ->
       Stmt.balanceAt p' k = Some b' -> b <= b')
    /\ (forall d', Lifespan.depletionYear p' = Some d' ->
          exists d, Lifespan.depletionYear p = Some d /\ (d <= d')%nat)
    /\ (Lifespan.depletionYear p = None -> Lifespan.depletionYear p' = None).
Proof.
  intros ip ap T E0 P0 P0' a p p' Ha HP. subst p p'.
  set (i := Lifespan.rate ip).
  assert (Hmono : forall k,
            Lifespan.portfolioUsd (Lifespan.runLoop i a E0 P0 k)
            <= Lifespan.portfolioUsd (Lifespan.runLoop i a E0 P0' k))
    by (intro k; now apply balance_monotone).
  assert (Hnone : Lifespan.depletionYear (Lifespan.project ip ap T E0 P0) = None ->
                  Lifespan.depletionYear (Lifespan.project ip ap T E0 P0') = None).
  { rewrite !project_depletionYear, !depletion_none. intros H k Hk.
    apply Qclt_le_trans with
      (Lifespan.portfolioUsd (Lifespan.runLoop i a E0 P0 k));
      [now apply H | apply Hmono]. }
  split; [|split; [|exact Hnone]].
  - intros k b b' Hb Hb'.
    apply project_balanceAt_inv in Hb as [_ ->].
    apply project_balanceAt_inv in Hb' as [_ ->]. apply Hmono.
  - intros d' Hd'.
    destruct (Lifespan.depletionYear (Lifespan.project ip ap T E0 P0))
      as [d|] eqn:Hd.
    + exists d. split; [reflexivity|].
      rewrite project_depletionYear in Hd, Hd'.
      apply depletion_some in Hd as (Hr & Hle & Hlt).
      apply depletion_some in Hd' as (Hr' & Hle' & Hlt').
      destruct (le_lt_dec d d') as [H|H]; [exact H|]. exfalso.
      apply (Qclt_not_le _ _ (Hlt d' ltac:(lia))).
      apply Qcle_trans with
        (Lifespan.portfolioUsd (Lifespan.runLoop i a E0 P0' d'));
        [apply Hmono | exact Hle'].
    + rewrite (Hnone eq_refl) in Hd'. discriminate Hd'.
Qed.

Lemma larger_portfolio_lasts_longer_witness :
  let p := Lifespan.project (Num.lit 3 1) (Num.lit 7 1) 10
             (Num.lit 60000 1) (Num.lit 100000 1) in
  let p' := Lifespan.project (Num.lit 3 1) (Num.lit 7 1) 10
              (Num.lit 60000 1) (Num.lit 200000 1) in
  (forall k b b', Stmt.balanceAt p k = Some b ->
     Stmt.balanceAt p' k = Some b' -> b <= b')
  /\ (forall d', Lifespan.depletionYear p' = Some d' ->
        exists d, Lifespan.depletionYear p = Some d /\ (d <= d')%nat)
  /\ (Lifespan.depletionYear p = None -> Lifespan.depletionYear p' = None).
Proof.
  apply (larger_portfolio_lasts_longer (Num.lit 3 1) (Num.lit 7 1) 10
           (Num.lit 60000 1) (Num.lit 100000 1) (Num.lit 200000 1));
    vm_compute; discriminate.
Defined.

(** ** The cumulative costs and the log-scale domain *)

Section MinFacts.

Lemma min_le_l (x y : Qc) : Num.min x y <= x.
Proof.
  unfold Num.min. destruct (Num.leb x y) eqn:E.
  - apply Qcle_refl.
  - apply leb_gt in E. now apply Qclt_le_weak.
Qed.

Lemma min_le_r (x y : Qc) : Num.min x y <= y.
Proof.
  unfold Num.min. destruct (Num.leb x y) eqn:E.
  - now apply leb_le.
  - apply Qcle_refl.
Qed.

Lemma min_cases (x y : Qc) : Num.min x y = x \/ Num.min x y = y.
Proof. unfold Num.min. destruct (Num.leb x y); auto. Qed.

Lemma minOf_le_head (xs : list Qc) (x : Qc) : Num.minOf x xs <= x.
Proof.
  unfold Num.minOf. revert x. induction xs as [|y ys IH]; intro x.
  - apply Qcle_refl.
  - cbn [fold_left]. apply Qcle_trans with (Num.min x y);
      [apply IH | apply min_le_l].
Qed.

Lemma minOf_lower_bound (xs : list Qc) (x z : Qc) :
  In z (x :: xs) -> Num.minOf x xs <= z.
Proof.
  unfold Num.minOf. revert x. induction xs as [|y ys IH]; intros x Hz.
  - destruct Hz as [->|[]]. apply Qcle_refl.
  - cbn [fold_left]. destruct Hz as [->|[->|Hz]].
    + apply Qcle_trans with (Num.min z y); [apply minOf_le_head | apply min_le_l].
    + apply Qcle_trans with (Num.min x z); [apply minOf_le_head | apply min_le_r].
    + apply IH. now right.
Qed.

Lemma minOf_In (xs : list Qc) (x : Qc) : In (Num.minOf x xs) (x :: xs).
Proof.
  unfold Num.minOf. revert x. induction xs as [|y ys IH]; intro x.
  - now left.
  - cbn [fold_left]. destruct (IH (Num.min x y)) as [H|H].
    + rewrite <- H. destruct (min_cases x y) as [E|E]; rewrite E;
        [now left | right; now left].
    + right. now right.
Qed.

(** The lower end of a log axis: positive, and no larger than any positive
    value of the list it was taken from. *)
Lemma minOrDefault_positive (xs : list Qc) (dflt : Qc) :
  0 < dflt ->
  let m := Cumulative.minOrDefault
             (filter (fun value => Num.gtb value 0) xs) dflt in
  0 < m /\ forall z, In z xs -> 0 < z -> m <= z.
Proof.
  intros Hd m. subst m.
  destruct (filter (fun value => Num.gtb value 0) xs) as [|y ys] eqn:E;
    cbn [Cumulative.minOrDefault].
  - split; [exact Hd|]. intros z Hz Hpos.
    assert (Hin : In z (filter (fun value => Num.gtb value 0) xs))
      by (apply filter_In; split; [exact Hz | now apply gtb_gt]).
    rewrite E in Hin. destruct Hin.
  - split.
    + pose proof (minOf_In ys y) as Hin. rewrite <- E in Hin.
      apply filter_In in Hin as [_ Hin]. now apply gtb_gt.
    + intros z Hz Hpos. apply minOf_lower_bound. rewrite <- E.
      apply filter_In. split; [exact Hz | now apply gtb_gt].
Qed.

End MinFacts.

(** X12.  Under both scale modes the lower ends the charts use for a log
    axis are positive and no larger than any positive value plotted:
    [minPositiveUsd] for the USD chart, [minPositiveBtc] for the BTC
    chart. *)
Theorem log_domain_floor_positive :
  forall (inflationPercent assetGrowthPercent : Qc) (T : nat)
         (E0 price : Qc) (mode : Cumulative.ScaleMode),
    let c := Cumulative.project inflationPercent assetGrowthPercent T E0
               price mode in
    0 < Cumulative.minPositiveUsd c
    /\ 0 < Cumulative.minPositiveBtc c
    /\ (forall pt, In pt (Cumulative.chartSeries c) ->
          0 < Cumulative.cumUsd pt ->
          Cumulative.minPositiveUsd c <= Cumulative.cumUsd pt)
    /\ (forall pt, In pt (Cumulative.chartSeries c) ->
          0 < Cumulative.cumBtc pt ->
          Cumulative.minPositiveBtc c <= Cumulative.cumBtc pt).
Proof.
  intros ip ap T E0 price mode c. subst c.
  unfold Cumulative.project.
  cbn [Cumulative.minPositiveUsd Cumulative.minPositiveBtc
       Cumulative.chartSeries].
  set (trimmed := Cumulative.trimmedPoints mode _).
  destruct (minOrDefault_positive (map Cumulative.cumUsd trimmed) 1
              ltac:(reflexivity)) as [Hu Hul].
  destruct (minOrDefault_positive (map Cumulative.cumBtc trimmed)
              (Num.lit 1 1000000) ltac:(reflexivity)) as [Hb Hbl].
  split; [exact Hu|]. split; [exact Hb|]. split.
  - intros pt Hpt Hpos. apply Hul; [now apply in_map | exact Hpos].
  - intros pt Hpt Hpos. apply Hbl; [now apply in_map | exact Hpos].
Qed.

Section CumulativeGrowth.

Import Cumulative.

Lemma Qcmult_nonneg (x y : Qc) : 0 <= x -> 0 <= y -> 0 <= x * y.
Proof.
  intros Hx Hy. rewrite <- (Qcmult_0_l y). now apply Qcmult_le_compat_r.
Qed.

Lemma Qcplus_nonneg_le (x y : Qc) : 0 <= y -> x <= x + y.
Proof.
  intro Hy. apply Qcle_minus_iff.
  replace (x + y + - x) with y by ring. exact Hy.
Qed.

Variables i a E0 price : Qc.

Abbreviation run := (runLoop i a E0 price).

Lemma usd_flow_nonneg (k : nat) :
  - (1) < i -> 0 <= E0 -> 0 <= E0 * (1 + i) ^ k.
Proof.
  intros Hi HE. apply Qcmult_nonneg; [exact HE|].
  now apply Qclt_le_weak, Qcpower_gt_0, succ_rate_pos.
Qed.

Lemma btc_flow_nonneg (k : nat) :
  - (1) < i -> - (1) < a -> 0 <= E0 -> 0 < price ->
  0 <= E0 * (1 + i) ^ k / (price * (1 + a) ^ k).
Proof.
  intros Hi Ha HE HP. unfold Qcdiv.
  apply Qcmult_nonneg; [now apply usd_flow_nonneg|].
  apply Qclt_le_weak, Qcinv_pos, Qcmult_pos; [exact HP|].
  now apply Qcpower_gt_0, succ_rate_pos.
Qed.

Lemma cum_usd_nondecreasing (j k : nat) :
  - (1) < i -> 0 <= E0 -> (j <= k)%nat ->
  runningUsdTotal (run j) <= runningUsdTotal (run k).
Proof.
  intros Hi HE Hjk. induction Hjk as [|k Hjk IH]; [apply Qcle_refl|].
  apply Qcle_trans with (runningUsdTotal (run k)); [exact IH|].
  rewrite cum_usd_S. apply Qcplus_nonneg_le. now apply usd_flow_nonneg.
Qed.

Lemma cum_btc_nondecreasing (j k : nat) :
  - (1) < i -> - (1) < a -> 0 <= E0 -> 0 < price -> (j <= k)%nat ->
  runningBtcTotal (run j) <= runningBtcTotal (run k).
Proof.
  intros Hi Ha HE HP Hjk. induction Hjk as [|k Hjk IH]; [apply Qcle_refl|].
  apply Qcle_trans with (runningBtcTotal (run k)); [exact IH|].
  rewrite cum_btc_S. apply Qcplus_nonneg_le. now apply btc_flow_nonneg.
Qed.

End CumulativeGrowth.

(** X13.  For the values the component can hold (inflation in [0..20] and
    growth in [-10..30] percent in steps of [0.1], a horizon up to [60], an
    expense in [[0, 10000000]]) and a price of at least [1], the cumulative
    costs never decrease from one year to the next and are never negative,
    in both units, and the year-0 point shows [0] in both. *)
Theorem cumulative_costs_nondecreasing :
  forall (inflationPercent assetGrowthPercent : Qc) (T : nat)
         (E0 price : Qc) (mode : Cumulative.ScaleMode),
    let c := Cumulative.project inflationPercent assetGrowthPercent T E0
               price mode in
    View.sliderValue 0 200 inflationPercent ->
    View.sliderValue (-100) 300 assetGrowthPercent ->
    (T <= 60)%nat ->
    0 <= E0 -> E0 <= Num.lit 10000000 1 -> 1 <= price ->
    (forall j k pj pk, (j <= k)%nat ->
       nth_error (Cumulative.series c) j = Some pj ->
       nth_error (Cumulative.series c) k = Some pk ->
       Cumulative.cumUsd pj <= Cumulative.cumUsd pk
       /\ Cumulative.cumBtc pj <= Cumulative.cumBtc pk)
    /\ hd_error (Cumulative.series c) = Some (Cumulative.mkYearPoint 0 0 0)
    /\ (forall pt, In pt (Cumulative.series c) ->
          0 <= Cumulative.cumUsd pt /\ 0 <= Cumulative.cumBtc pt).
Proof.
  intros ip ap T E0 price mode c Hsi Hsa _ HE _ HP1. subst c.
  set (i := Cumulative.rate ip). set (a := Cumulative.rate ap).
  assert (Hi : - (1) < i) by (apply (slider_rate_gt 0 200); [lia | exact Hsi]).
  assert (Ha : - (1) < a)
    by (apply (slider_rate_gt (-100) 300); [lia | exact Hsa]).
  assert (HP : 0 < price)
    by (apply Qclt_le_trans with 1; [reflexivity | exact HP1]).
  unfold Cumulative.project. fold i a. cbn [Cumulative.series].
  assert (Hbound : forall k pk,
            nth_error (Cumulative.points (Cumulative.runLoop i a E0 price T)) k
            = Some pk ->
            (k <= T)%nat
            /\ pk = Cumulative.mkYearPoint k
                      (Cumulative.runningUsdTotal
                         (Cumulative.runLoop i a E0 price k))
                      (Cumulative.runningBtcTotal
                         (Cumulative.runLoop i a E0 price k))).
  { intros k pk Hk. destruct (le_lt_dec k T) as [H|H].
    - rewrite cum_points_nth in Hk by exact H. split; congruence.
    - assert (Hn : nth_error (Cumulative.points
                                (Cumulative.runLoop i a E0 price T)) k = None)
        by (apply nth_error_None; rewrite cum_points_length; lia).
      rewrite Hn in Hk. discriminate Hk. }
  split; [|split].
  - intros j k pj pk Hjk Hj Hk.
    apply Hbound in Hj as [_ ->]. apply Hbound in Hk as [_ ->].
    cbn [Cumulative.cumUsd Cumulative.cumBtc].
    split; [now apply cum_usd_nondecreasing | now apply cum_btc_nondecreasing].
  - rewrite cum_points_shape. reflexivity.
  - intros pt Hpt. apply In_nth_error in Hpt as [k Hk].
    apply Hbound in Hk as [_ ->]. cbn [Cumulative.cumUsd Cumulative.cumBtc].
    split.
    + apply (cum_usd_nondecreasing i a E0 price 0 k Hi HE). lia.
    + apply (cum_btc_nondecreasing i a E0 price 0 k Hi Ha HE HP). lia.
Qed.

Lemma cumulative_costs_nondecreasing_witness :
  let c := Cumulative.project (Num.lit 30 10) (Num.lit 70 10) 10
             (Num.lit 60000 1) (Num.lit 60000 1) Cumulative.log in
  (forall j k pj pk, (j <= k)%nat ->
     nth_error (Cumulative.series c) j = Some pj ->
     nth_error (Cumulative.series c) k = Some pk ->
     Cumulative.cumUsd pj <= Cumulative.cumUsd pk
     /\ Cumulative.cumBtc pj <= Cumulative.cumBtc pk)
  /\ hd_error (Cumulative.series c) = Some (Cumulative.mkYearPoint 0 0 0)
  /\ (forall pt, In pt (Cumulative.series c) ->
        0 <= Cumulative.cumUsd pt /\ 0 <= Cumulative.cumBtc pt).
Proof.
  apply (cumulative_costs_nondecreasing (Num.lit 30 10) (Num.lit 70 10) 10
           (Num.lit 60000 1) (Num.lit 60000 1) Cumulative.log).
  - exists 30%Z. split; [lia | reflexivity].
  - exists 70%Z. split; [lia | reflexivity].
  - lia.
  - vm_compute. discriminate.
  - vm_compute. discriminate.
  - vm_compute. discriminate.
Defined.

(** X15.  The cumulative-cost component and the two portfolio components
    add up the same USD flows: the cumulative USD cost at [T] is the total
    nominal expense both portfolio variants report, and the cumulative point
    of year [k <= T] shows the total they report for the horizon [k]. *)
Theorem cumulative_usd_matches_portfolio_total :
  forall (inflationPercent assetGrowthPercent : Qc) (T : nat)
         (E0 P0 price : Qc) (mode : Cumulative.ScaleMode),
    let c := Cumulative.project inflationPercent assetGrowthPercent T E0
               price mode in
    let p := Lifespan.project inflationPercent assetGrowthPercent in
    let q := AssetAdjusted.project inflationPercent assetGrowthPercent in
    Cumulative.cumUsdAtT c = Lifespan.totalExpensesUsd (p T E0 P0)
    /\ Cumulative.cumUsdAtT c = AssetAdjusted.totalNominal (q T E0 P0)
    /\ (forall k, (k <= T)%nat ->
          option_map Cumulative.cumUsd (nth_error (Cumulative.series c) k)
          = Some (Lifespan.totalExpensesUsd (p k E0 P0))).
Proof.
  intros ip ap T E0 P0 price mode c p q. subst c p q.
  set (i := Cumulative.rate ip). set (a := Cumulative.rate ap).
  assert (Hk : forall k,
            Cumulative.runningUsdTotal (Cumulative.runLoop i a E0 price k)
            = Lifespan.totalExpensesUsd (Lifespan.project ip ap k E0 P0)).
  { intro k. rewrite project_totalUsd.
    change (Lifespan.rate ip) with i. change (Lifespan.rate ap) with a.
    now rewrite usd_total_sum, cum_usd_sum. }
  assert (HT : Cumulative.cumUsdAtT (Cumulative.project ip ap T E0 price mode)
               = Lifespan.totalExpensesUsd (Lifespan.project ip ap T E0 P0)).
  { rewrite <- Hk. unfold Cumulative.project. cbn [Cumulative.cumUsdAtT].
    fold i a. now rewrite cum_points_last. }
  split; [exact HT|]. split.
  - rewrite HT. rewrite project_totalUsd.
    change (Lifespan.rate ip) with i. change (Lifespan.rate ap) with a.
    destruct (agree_run i a E0 P0 T) as (_ & _ & Hu & _). exact Hu.
  - intros k Hle. unfold Cumulative.project. fold i a.
    cbn [Cumulative.series]. rewrite cum_points_nth by exact Hle.
    cbn [option_map Cumulative.cumUsd]. now rewrite Hk.
Qed.

(** ** The price fetch, the override and the warnings *)

Section PriceFacts.

Import Cumulative Price.

Variable Number : string -> JsNumber.
Variable toText : JsNumber -> string.
Variable isoOfSeconds : JsNumber -> option string.
Variable nowIso : string.

Lemma fallback_price_positive : positive (Finite FALLBACK_BTC_PRICE).
Proof. right. exists FALLBACK_BTC_PRICE. split; reflexivity. Qed.

Lemma accepted_price_positive (x : JsNumber) :
  negb (JsMath.truthy x) || leZero x = false <-> positive x.
Proof.
  unfold positive. destruct x as [q| | |]; cbn [JsMath.truthy leZero negb orb].
  - rewrite negb_involutive. split.
    + intro H. apply orb_false_iff in H as [_ H]. apply leb_gt in H.
      right. exists q. now split.
    + intros [H|(q' & E & H)]; [discriminate H|]. injection E as <-.
      apply orb_false_iff. split; [|now apply leb_gt].
      destruct (Qc_eq_bool q 0) eqn:E; [|reflexivity].
      apply Qc_eq_bool_correct in E. subst q. discriminate H.
  - split; [now left | reflexivity].
  - split; [discriminate|]. intros [H|(q' & E & _)]; discriminate.
  - split; [discriminate|]. intros [H|(q' & E & _)]; discriminate.
Qed.

Lemma load_cases (outcome : FetchOutcome) :
  loadBtcPrice toText isoOfSeconds nowIso outcome = fallbackState toText
  \/ exists b usdPrice iso,
       outcome = Response true (Some (Some b))
       /\ usd b = Some usdPrice
       /\ positive usdPrice
       /\ loadBtcPrice toText isoOfSeconds nowIso outcome
          = mkPriceState usdPrice (toText usdPrice) (Some iso) None.
Proof.
  destruct outcome as [|[|] [[b|]|]]; try (now left).
  cbn [loadBtcPrice].
  destruct (usd b) as [usdPrice|] eqn:Eu; [|now left].
  destruct (negb (JsMath.truthy usdPrice) || leZero usdPrice) eqn:G;
    [now left|].
  apply accepted_price_positive in G.
  destruct (match last_updated_at b with
            | Some seconds =>
                if JsMath.truthy seconds then isoOfSeconds seconds
                else Some nowIso
            | None => Some nowIso
            end) as [iso|] eqn:Ei; [|now left].
  right. exists b, usdPrice, iso. repeat split; assumption.
Qed.

Lemma effective_positive (input : string) (fetched : JsNumber) :
  positive fetched -> positive (effectiveBtcPrice Number input fetched).
Proof.
  intro Hf. unfold effectiveBtcPrice.
  destruct (negb (isFinite (Number input)) || leZero (Number input)) eqn:G.
  - exact Hf.
  - apply guard_false in G. now right.
Qed.

Lemma warnings_parts (fw : option string) (mode : ScaleMode) (input : string) :
  warnings Number fw mode input
  = match fw with
    | Some s => if String.eqb s "" then [] else [s]
    | None => []
    end
    ++ match mode with log => [logScaleWarning] | linear => [] end
    ++ (if leZero (Number input) then [overrideWarning] else []).
Proof.
  unfold warnings, filterBoolean. cbn [flat_map]. rewrite app_nil_r.
  f_equal. f_equal; [now destruct mode | now destruct (leZero (Number input))].
Qed.

Lemma in_fetch_part (fw : option string) (w : string) :
  View.heldWarning fw ->
  In w match fw with
       | Some s => if String.eqb s "" then [] else [s]
       | None => []
       end
  <-> fw = Some w.
Proof.
  intros [->|[->| ->]]; cbn; split; intro H;
    try discriminate H; try contradiction.
  - destruct H as [<-|[]]. reflexivity.
  - injection H as <-. now left.
  - destruct H as [<-|[]]. reflexivity.
  - injection H as <-. now left.
Qed.

Lemma in_scale_part (mode : ScaleMode) (w : string) :
  In w match mode with log => [logScaleWarning] | linear => [] end
  <-> w = logScaleWarning /\ mode = log.
Proof.
  destruct mode; cbn; split.
  - contradiction.
  - intros [_ H]. discriminate H.
  - intros [<-|[]]. now split.
  - intros [-> _]. now left.
Qed.

Lemma in_override_part (x : JsNumber) (w : string) :
  In w (if leZero x then [overrideWarning] else [])
  <-> w = overrideWarning /\ leZero x = true.
Proof.
  destruct (leZero x); cbn; split.
  - intros [<-|[]]. now split.
  - intros [-> _]. now left.
  - contradiction.
  - intros [_ H]. discriminate H.
Qed.

Lemma effective_of_own_text (input : string) (fetched : JsNumber) :
  Number input = fetched -> effectiveBtcPrice Number input fetched = fetched.
Proof.
  intro H. unfold effectiveBtcPrice. rewrite H.
  now destruct (negb (isFinite fetched) || leZero fetched).
Qed.

End PriceFacts.

(** X16.  Whatever the fetch meets, [loadBtcPrice] leaves one of two
    states.  Either the fallback state: the fallback price, its text in the
    override field, no update time and the failure warning; this is what a
    rejected fetch, a response that is not [ok], an unreadable payload, a
    payload without a price and a price that is [0], [NaN] or negative all
    give, and also a good price whose update time cannot be formatted.  Or
    the fetched state: the payload's price, which is then positive, its text
    in the override field, an update time and no warning. *)
Theorem load_price_outcomes :
  forall (toText : Cumulative.JsNumber -> string)
         (isoOfSeconds : Cumulative.JsNumber -> option string)
         (nowIso : string) (outcome : Price.FetchOutcome),
    let load := Price.loadBtcPrice toText isoOfSeconds nowIso in
    let s := load outcome in
    (s = Price.fallbackState toText
     \/ exists b usdPrice iso,
          outcome = Price.Response true (Some (Some b))
          /\ Price.usd b = Some usdPrice
          /\ Price.positive usdPrice
          /\ s = Price.mkPriceState usdPrice (toText usdPrice) (Some iso) None)
    /\ Price.positive (Price.fetchedBtcPrice s)
    /\ Price.btcPriceInput s = toText (Price.fetchedBtcPrice s)
    /\ (Price.btcFetchWarning s = None <-> Price.btcUpdatedAt s <> None)
    /\ load Price.Rejected = Price.fallbackState toText
    /\ (forall json, load (Price.Response false json)
                     = Price.fallbackState toText)
    /\ load (Price.Response true None) = Price.fallbackState toText
    /\ load (Price.Response true (Some None)) = Price.fallbackState toText
    /\ (forall b, Price.usd b = None ->
          load (Price.Response true (Some (Some b)))
          = Price.fallbackState toText)
    /\ (forall b x, Price.usd b = Some x -> ~ Price.positive x ->
          load (Price.Response true (Some (Some b)))
          = Price.fallbackState toText)
    /\ (forall b x seconds,
          Price.usd b = Some x ->
          Price.last_updated_at b = Some seconds ->
          JsMath.truthy seconds = true -> isoOfSeconds seconds = None ->
          load (Price.Response true (Some (Some b)))
          = Price.fallbackState toText).
Proof.
  intros toText isoOfSeconds nowIso outcome load s. subst s load.
  pose proof (load_cases toText isoOfSeconds nowIso outcome) as Hc.
  split; [exact Hc|].
  split; [|split; [|split]].
  - destruct Hc as [->|(b & x & iso & _ & _ & Hx & ->)];
      [apply fallback_price_positive | exact Hx].
  - destruct Hc as [->|(b & x & iso & _ & _ & _ & ->)]; reflexivity.
  - destruct Hc as [->|(b & x & iso & _ & _ & _ & ->)];
      cbn; split; intro H; try discriminate; try reflexivity;
      now contradict H.
  - repeat split; try reflexivity.
    + intros b Hu. cbn [Price.loadBtcPrice]. now rewrite Hu.
    + intros b x Hu Hx. cbn [Price.loadBtcPrice]. rewrite Hu.
      destruct (negb (JsMath.truthy x) || Cumulative.leZero x) eqn:G;
        [reflexivity|].
      apply accepted_price_positive in G. contradiction.
    + intros b x seconds Hu Hl Ht Hi. cbn [Price.loadBtcPrice].
      rewrite Hu, Hl, Ht, Hi.
      now destruct (negb (JsMath.truthy x) || Cumulative.leZero x).
Qed.

(** X17.  With a fetched price that came from the initial state or from
    [loadBtcPrice], the price the projection divides by is positive for
    every text in the override field: never [NaN], never zero, never
    negative.  It is the fetched price itself whenever the text converts
    back to that price, as the text the fetch writes into the field does. *)
Theorem effective_price_positive :
  forall (Number : string -> Cumulative.JsNumber)
         (toText : Cumulative.JsNumber -> string)
         (isoOfSeconds : Cumulative.JsNumber -> option string)
         (nowIso : string) (outcome : Price.FetchOutcome) (input : string),
    let s0 := Price.initialState toText in
    let s := Price.loadBtcPrice toText isoOfSeconds nowIso outcome in
    Price.positive
      (Cumulative.effectiveBtcPrice Number input (Price.fetchedBtcPrice s0))
    /\ Price.positive
         (Cumulative.effectiveBtcPrice Number input (Price.fetchedBtcPrice s))
    /\ (Number (Price.btcPriceInput s) = Price.fetchedBtcPrice s ->
          Cumulative.effectiveBtcPrice Number (Price.btcPriceInput s)
            (Price.fetchedBtcPrice s)
          = Price.fetchedBtcPrice s).
Proof.
  intros Number toText isoOfSeconds nowIso outcome input s0 s. subst s0 s.
  split; [|split].
  - apply effective_positive. apply fallback_price_positive.
  - apply effective_positive.
    destruct (load_cases toText isoOfSeconds nowIso outcome)
      as [->|(b & x & iso & _ & _ & Hx & ->)];
      [apply fallback_price_positive | exact Hx].
  - apply effective_of_own_text.
Qed.

Lemma effective_price_positive_witness :
  let Number := fun _ : string => Cumulative.Finite Cumulative.FALLBACK_BTC_PRICE in
  let toText := fun _ : Cumulative.JsNumber => "60000"%string in
  let s := Price.loadBtcPrice toText (fun _ => None) ""%string Price.Rejected in
  Cumulative.effectiveBtcPrice Number (Price.btcPriceInput s)
    (Price.fetchedBtcPrice s)
  = Price.fetchedBtcPrice s.
Proof.
  apply (effective_price_positive
           (fun _ : string => Cumulative.Finite Cumulative.FALLBACK_BTC_PRICE)
           (fun _ : Cumulative.JsNumber => "60000"%string)
           (fun _ => None) ""%string Price.Rejected ""%string).
  reflexivity.
Defined.

(** X18.  With a fetch warning the component can hold (none, the pending
    one or the failure one), the list of warnings shows the override
    warning exactly when the override text parses to a number [<= 0], and
    the log-scale note exactly under ['log']; it is empty exactly when
    there is no fetch warning, the scale is linear and the override does
    not parse to a number [<= 0].  So an override that is not a number, or
    is [+Infinity], is ignored in favour of the fetched price without the
    override warning. *)
Theorem warnings_shown :
  forall (Number : string -> Cumulative.JsNumber)
         (btcFetchWarning : option string) (scaleMode : Cumulative.ScaleMode)
         (btcPriceInput : string) (fetchedBtcPrice : Cumulative.JsNumber),
    let parsed := Number btcPriceInput in
    let ws := Price.warnings Number btcFetchWarning scaleMode btcPriceInput in
    (btcFetchWarning = None
     \/ btcFetchWarning = Some Price.fallbackPendingWarning
     \/ btcFetchWarning = Some Price.fetchFailedWarning) ->
    (In Price.overrideWarning ws <-> Stmt.nonPositive parsed)
    /\ (In Price.logScaleWarning ws <-> scaleMode = Cumulative.log)
    /\ (forall w, btcFetchWarning = Some w -> In w ws)
    /\ (ws = [] <-> btcFetchWarning = None /\ scaleMode = Cumulative.linear
                    /\ ~ Stmt.nonPositive parsed)
    /\ (parsed = Cumulative.NaN \/ parsed = Cumulative.PosInfinity ->
          Cumulative.effectiveBtcPrice Number btcPriceInput fetchedBtcPrice
          = fetchedBtcPrice
          /\ ~ In Price.overrideWarning ws).
Proof.
  intros Number fw mode input fetched parsed ws Hfw. subst ws.
  rewrite warnings_parts. fold parsed.
  pose proof (leZero_true parsed) as Hz.
  pose proof (in_fetch_part fw) as H1. specialize (fun w => H1 w Hfw).
  pose proof (in_scale_part mode) as H2.
  pose proof (in_override_part parsed) as H3.
  assert (Hdistinct : fw <> Some Price.overrideWarning
                      /\ fw <> Some Price.logScaleWarning)
    by (destruct Hfw as [->|[->| ->]]; split; discriminate).
  destruct Hdistinct as [Hno Hnl].
  split; [|split; [|split; [|split]]].
  - rewrite !in_app_iff, H1, H2, H3, <- Hz. split.
    + intros [H|[[H _]|[_ H]]];
        [contradiction | discriminate H | exact H].
    + intro H. right. right. now split.
  - rewrite !in_app_iff, H1, H2, H3. split.
    + intros [H|[[_ H]|[H _]]];
        [contradiction | exact H | discriminate H].
    + intro H. right. left. now split.
  - intros w Hw. rewrite !in_app_iff, H1. now left.
  - split.
    + intro H. apply app_eq_nil in H as [Ha H].
      apply app_eq_nil in H as [Hb Hc]. repeat split.
      * destruct fw as [w|]; [|reflexivity].
        pose proof (proj2 (H1 w) eq_refl) as Hin.
        rewrite Ha in Hin. destruct Hin.
      * destruct mode; [reflexivity | discriminate Hb].
      * intro Hp. apply Hz in Hp. rewrite Hp in Hc. discriminate Hc.
    + intros (-> & -> & Hp). cbn [app].
      destruct (Cumulative.leZero parsed) eqn:El; [|reflexivity].
      exfalso. apply Hp. now apply Hz.
  - intro Hp.
    assert (El : Cumulative.leZero parsed = false)
      by (destruct Hp as [->| ->]; reflexivity).
    split.
    + unfold Cumulative.effectiveBtcPrice. fold parsed.
      destruct Hp as [->| ->]; reflexivity.
    + rewrite !in_app_iff, H1, H2, H3, El.
      intros [H|[[H _]|[_ H]]];
        [contradiction | discriminate H | discriminate H].
Qed.

Lemma warnings_shown_witness :
  let Number := fun s : string =>
    if String.eqb s "-5" then Cumulative.Finite (Num.lit (-5) 1)
    else Cumulative.NaN in
  let fetched := Cumulative.Finite Cumulative.FALLBACK_BTC_PRICE in
  Cumulative.effectiveBtcPrice Number "abc" fetched = fetched
  /\ ~ In Price.overrideWarning
         (Price.warnings Number None Cumulative.linear "abc").
Proof.
  apply (warnings_shown
           (fun s : string =>
              if String.eqb s "-5" then Cumulative.Finite (Num.lit (-5) 1)
              else Cumulative.NaN)
           None Cumulative.linear "abc"
           (Cumulative.Finite Cumulative.FALLBACK_BTC_PRICE)).
  - left. reflexivity.
  - left. reflexivity.
Defined.
